(** * security_dataset: index parser, store, statistics and coverage

    A shallow embedding of the Python sources
    ([src/parsers/index_parser.py], [src/database/db_manager.py],
    [src/utils/stats_analyzer.py], [tools/analyze_coverage.py],
    [tools/process_indexes.py]) and the properties of the specification
    checked against it.

    Text is a [string] whose characters stand for the code points below 256;
    Python's [None] is [None], a value that is present is [Some]. *)

From Stdlib Require Import ZArith Floats Ascii String List.
From stdpp Require Import gmap strings list pretty.

#[global] Set Warnings "-clear-no-such-hyp".


(** ** Exceptions *)

(** A Python call either returns or raises; [Raised] carries the exception's
    name. *)
Inductive outcome (A : Type) : Type :=
| Normal (a : A)
| Raised (exc : string).
Arguments Normal {A} a.
Arguments Raised {A} exc.

#[global] Instance outcome_bind : MBind outcome := fun A B k m =>
  match m with
  | Normal a => k a
  | Raised e => Raised e
  end.

(** [l[i]] on a Python list. *)
Definition py_index {A : Type} (l : list A) (i : nat) : outcome A :=
  match l !! i with
  | Some x => Normal x
  | None => Raised "IndexError"
  end.

(** ** Python [str] methods *)
Module Text.

(** [str.isspace] of one character (code points below 256). *)
Definition isspace (c : ascii) : bool :=
  let n := nat_of_ascii c in
  ((9 <=? n) && (n <=? 13) || (28 <=? n) && (n <=? 32) || (n =? 133) || (n =? 160))%nat.

Fixpoint lstrip (s : string) : string :=
  match s with
  | String c s' => if isspace c then lstrip s' else s
  | EmptyString => EmptyString
  end.

Definition rstrip (s : string) : string := String.rev (lstrip (String.rev s)).

(** The line feed, as a string. *)
Definition newline : string := String "010"%char EmptyString.

(** [s.strip()] *)
Definition strip (s : string) : string := rstrip (lstrip s).

(** [s.lstrip(ch)] for a one-character argument. *)
Fixpoint lstrip_char (ch : ascii) (s : string) : string :=
  match s with
  | String c s' => if Ascii.eqb c ch then lstrip_char ch s' else s
  | EmptyString => EmptyString
  end.

(** [s.startswith(p)] *)
Definition startswith (p s : string) : bool := String.prefix p s.

(** The text after the prefix [p], when [s] starts with it. *)
Fixpoint removeprefix (p s : string) : option string :=
  match p, s with
  | EmptyString, _ => Some s
  | String a p', String b s' => if Ascii.eqb a b then removeprefix p' s' else None
  | String _ _, EmptyString => None
  end.

Fixpoint drop_chars (n : nat) (s : string) : string :=
  match n, s with
  | S n', String _ s' => drop_chars n' s'
  | _, _ => s
  end.

(** [s.split(sep)] for a non-empty separator: a left-to-right scan for
    non-overlapping occurrences.  [skip] counts the characters of a
    separator just found that are still to be passed over, [cur] is the
    current piece, reversed. *)
Fixpoint split_go (sep : string) (skip : nat) (cur s : string) : list string :=
  match s with
  | EmptyString => [String.rev cur]
  | String c s' =>
      match skip with
      | S k => split_go sep k cur s'
      | O =>
          if String.prefix sep s
          then String.rev cur :: split_go sep (String.length sep - 1) EmptyString s'
          else split_go sep O (String c cur) s'
      end
  end.

Definition split (sep s : string) : list string := split_go sep 0 EmptyString s.

(** [s.split(sep, 1)] for a one-character separator. *)
Fixpoint split1_go (sep : ascii) (cur s : string) : list string :=
  match s with
  | EmptyString => [String.rev cur]
  | String c s' =>
      if Ascii.eqb c sep then [String.rev cur; s'] else split1_go sep (String c cur) s'
  end.

Definition split1 (sep : ascii) (s : string) : list string := split1_go sep EmptyString s.

(** [sep.join(l)] *)
Definition join (sep : string) (l : list string) : string := String.concat sep l.

(** [s.rfind(ch)]: the index of the last occurrence, or [None] for -1. *)
Fixpoint rfind_go (ch : ascii) (s : string) (i : nat) (found : option nat) : option nat :=
  match s with
  | EmptyString => found
  | String c s' => rfind_go ch s' (S i) (if Ascii.eqb c ch then Some i else found)
  end.

Definition rfind (ch : ascii) (s : string) : option nat := rfind_go ch s 0 None.

(** *** The regular expressions of the parser

    [re.match] anchors at the start of the line.  The three patterns end in
    [\s*(.+)] or [\s+(.+)]: a greedy run of blanks, then a greedy non-empty
    run of characters other than the newline. *)

(** [(.+)] at the start of [s]. *)
Fixpoint dot_star (s : string) : string :=
  match s with
  | String c s' => if Ascii.eqb c "010" then EmptyString else String c (dot_star s')
  | EmptyString => EmptyString
  end.

Definition dot_plus (s : string) : option string :=
  match dot_star s with
  | EmptyString => None
  | g => Some g
  end.

Fixpoint count_space (s : string) : nat :=
  match s with
  | String c s' => if isspace c then S (count_space s') else O
  | EmptyString => O
  end.

(** The blanks quantifier gives back one character at a time, from [k]
    blanks down to [least], until [(.+)] matches. *)
Fixpoint greedy_space (least k : nat) (s : string) : option string :=
  if (k <? least)%nat then None
  else match dot_plus (drop_chars k s) with
       | Some g => Some g
       | None => match k with
                 | O => None
                 | S k' => greedy_space least k' s
                 end
       end.

(** [\s*(.+)] for [least = 0], [\s+(.+)] for [least = 1]: group 1. *)
Definition space_group (least : nat) (s : string) : option string :=
  greedy_space least (count_space s) s.

(** [re.match(r'File Name:\s*(.+)', line)]: group 1. *)
Definition match_file_name (line : string) : option string :=
  match removeprefix "File Name:" line with
  | Some rest => space_group 0 rest
  | None => None
  end.

(** [\s*\|\s*(.+)] after the algorithm's name. *)
Definition match_hash_tail (rest : string) : option string :=
  match lstrip rest with
  | String "|" rest' => space_group 0 rest'
  | _ => None
  end.

(** [re.match(r'(MD5|SHA-256)\s*\|\s*(.+)', line)]: groups 1 and 2. *)
Definition match_hash (line : string) : option (string * string) :=
  match removeprefix "MD5" line with
  | Some rest => pair "MD5" <$> match_hash_tail rest
  | None =>
      match removeprefix "SHA-256" line with
      | Some rest => pair "SHA-256" <$> match_hash_tail rest
      | None => None
      end
  end.

(** [re.match(r'Authored by\s+(.+)', line)]: group 1. *)
Definition match_author (line : string) : option string :=
  match removeprefix "Authored by" line with
  | Some rest => space_group 1 rest
  | None => None
  end.

End Text.

(** ** [pathlib.PurePosixPath]

    A path is its root ([""], ["/"] or ["//"]) and its segments. *)
Module PurePath.

Record t : Type := { root : string; tail : list string }.

(** [posixpath.splitroot]: exactly two leading slashes are a root of their
    own. *)
Definition splitroot (p : string) : string * string :=
  match p with
  | String "/" (String "/" (String "/" r)) => ("/", String "/" (String "/" r))
  | String "/" (String "/" r) => ("//", r)
  | String "/" r => ("/", r)
  | _ => ("", p)
  end.

Definition segment (x : string) : Prop := x ≠ "" ∧ x ≠ ".".

#[global] Instance segment_dec x : Decision (segment x).
Proof. unfold segment. apply _. Defined.

(** [Path(p)] *)
Definition of_string (p : string) : t :=
  let '(r, rel) := splitroot p in
  {| root := r; tail := filter segment (Text.split "/" rel) |}.

(** [path.parts] *)
Definition parts (p : t) : list string :=
  if decide (root p = "") then tail p else root p :: tail p.

Definition format (p : t) : string := root p +:+ Text.join "/" (tail p).

(** [str(path)] *)
Definition to_string (p : t) : string :=
  if decide (format p = "") then "." else format p.

(** [path.parent] *)
Definition parent (p : t) : t :=
  match tail p with
  | [] => p
  | _ => {| root := root p; tail := removelast (tail p) |}
  end.

(** [posixpath.join(a, b)] *)
Definition posix_join (a b : string) : string :=
  if Text.startswith "/" b then b
  else if decide (a = "") then b
  else if Text.startswith "/" (String.rev a) then a +:+ b
  else a +:+ "/" +:+ b.

(** [path / key] *)
Definition joinpath (p : t) (key : string) : t :=
  of_string (posix_join (format p) key).

(** [path.name] *)
Definition name (p : t) : string := List.last (tail p) "".

(** [path.suffix], as CPython defines it up to 3.12: from the last dot of the
    name, unless that dot is the first or the last character. *)
Definition suffix (p : t) : string :=
  let n := name p in
  match Text.rfind "." n with
  | Some i =>
      if ((0 <? i) && (i <? String.length n - 1))%nat
      then Text.drop_chars i n
      else ""
  | None => ""
  end.

End PurePath.

(** ** [src/parsers/index_parser.py] *)
Module IndexParser.

(** [entry['metadata']] *)
Record Metadata : Type := {
  tags : list string;
  systems : list string;
  hashes : list (string * string);
  author : option string;
  category : string
}.

(** [current_entry] while the lines of its block are read: the description
    is still a list of lines and the ['filename'] key may be missing. *)
Record Draft : Type := {
  d_metadata : Metadata;
  d_description : list string;
  d_source_index : string;
  d_filename : option string
}.

(** An entry of [results]. *)
Record Entry : Type := {
  filename : string;
  description : string;
  source_index : string;
  metadata : Metadata
}.

(** The parser object: [self.source_path] and [self.errors]. *)
Record Parser : Type := {
  source_path : option PurePath.t;
  errors : list string
}.

(** [IndexParser()] *)
Definition new : Parser := {| source_path := None; errors := [] |}.

(** What [open(...).read()] gave: the decoded text, or the exception. *)
Inductive read_result : Type :=
| ReadOk (content : string)
| ReadFailed (exc : string).

(** The [categories] dict of [_determine_category], in insertion order. *)
Definition categories : list (string * list string) :=
  [ ("exploit", ["exploits"]);
    ("shellcode", ["shellcodes"]);
    ("tool", ["util"]);
    ("doc", ["Doc"]);
    ("systemerror", ["systemerror"]) ].

(** The inner loop: [for category, markers in categories.items()]. *)
Fixpoint scan_rules (part : string) (rules : list (string * list string)) : option string :=
  match rules with
  | [] => None
  | (cat, markers) :: rest =>
      if bool_decide (part ∈ markers) then Some cat else scan_rules part rest
  end.

(** The outer loop: [for part in path_parts]. *)
Fixpoint scan_parts (path_parts : list string) : option string :=
  match path_parts with
  | [] => None
  | part :: rest =>
      match scan_rules part categories with
      | Some cat => Some cat
      | None => scan_parts rest
      end
  end.

Definition _determine_category (self : Parser) : string :=
  match source_path self with
  | None => "unknown"
  | Some p => default "unknown" (scan_parts (PurePath.parts p))
  end.

(** [d[key] = value] on a dict kept in insertion order. *)
Fixpoint dict_set (key value : string) (d : list (string * string)) : list (string * string) :=
  match d with
  | [] => [(key, value)]
  | (k, v) :: rest =>
      if decide (k = key) then (k, value) :: rest else (k, v) :: dict_set key value rest
  end.

Definition nonempty (s : string) : Prop := s ≠ "".

#[global] Instance nonempty_dec s : Decision (nonempty s).
Proof. unfold nonempty. apply _. Defined.

(** [[x.strip() for x in text.split(',') if x.strip()]] *)
Definition comma_list (text : string) : list string :=
  filter nonempty (Text.strip <$> Text.split "," text).

Definition set_filename (f : string) (cur : Draft) : Draft :=
  {| d_metadata := d_metadata cur; d_description := d_description cur;
     d_source_index := d_source_index cur; d_filename := Some f |}.

Definition set_metadata (m : Metadata) (cur : Draft) : Draft :=
  {| d_metadata := m; d_description := d_description cur;
     d_source_index := d_source_index cur; d_filename := d_filename cur |}.

Definition set_tags (l : list string) (m : Metadata) : Metadata :=
  {| tags := l; systems := systems m; hashes := hashes m; author := author m;
     category := category m |}.

Definition set_systems (l : list string) (m : Metadata) : Metadata :=
  {| tags := tags m; systems := l; hashes := hashes m; author := author m;
     category := category m |}.

Definition set_hash (k v : string) (m : Metadata) : Metadata :=
  {| tags := tags m; systems := systems m; hashes := dict_set k v (hashes m);
     author := author m; category := category m |}.

Definition set_author (a : string) (m : Metadata) : Metadata :=
  {| tags := tags m; systems := systems m; hashes := hashes m; author := Some a;
     category := category m |}.

Definition add_description (line : string) (cur : Draft) : Draft :=
  {| d_metadata := d_metadata cur; d_description := d_description cur ++ [line];
     d_source_index := d_source_index cur; d_filename := d_filename cur |}.

(** The body of [for line in lines]; the state is [current_entry] and the
    flag [in_description]. *)
Definition process_line (st : Draft * bool) (raw : string) : outcome (Draft * bool) :=
  let '(cur, in_description) := st in
  let line := Text.strip raw in
  if decide (line = "") then Normal st
  else match Text.match_file_name line with
  | Some g =>
      let f := Text.strip g in
      if decide (f ≠ "" ∧ f ≠ ":")
      then Normal (set_filename f cur, in_description)
      else Normal st
  | None =>
  if decide (line = "Description:") then Normal (cur, true)
  else if Text.startswith "tags |" line then
    t ← py_index (Text.split "|" line) 1;
    Normal (set_metadata (set_tags (comma_list (Text.strip t)) (d_metadata cur)) cur, false)
  else if Text.startswith "systems |" line then
    t ← py_index (Text.split "|" line) 1;
    Normal (set_metadata (set_systems (comma_list (Text.strip t)) (d_metadata cur)) cur, false)
  else match Text.match_hash line with
  | Some (hash_type, hash_value) =>
      Normal (set_metadata (set_hash hash_type (Text.strip hash_value) (d_metadata cur)) cur, false)
  | None =>
  match Text.match_author line with
  | Some a => Normal (set_metadata (set_author (Text.strip a) (d_metadata cur)) cur, false)
  | None =>
  if in_description then Normal (add_description line cur, in_description)
  else Normal st
  end end end.

Fixpoint process_lines (st : Draft * bool) (lines : list string) : outcome (Draft * bool) :=
  match lines with
  | [] => Normal st
  | line :: rest => st' ← process_line st line; process_lines st' rest
  end.

(** The fresh [current_entry] of a block. *)
Definition new_entry (self : Parser) : Draft :=
  {| d_metadata := {| tags := []; systems := []; hashes := []; author := None;
                      category := _determine_category self |};
     d_description := [];
     d_source_index := from_option PurePath.to_string "None" (source_path self);
     d_filename := None |}.

(** The description once the lines are read. *)
Definition final_description (lines : list string) : string :=
  let d := Text.strip (Text.join " " lines) in
  if decide (d = "") then "No description available" else d.

(** The draft as an entry of [results], when it has a file name. *)
Definition finish (cur : Draft) : option Entry :=
  match d_filename cur with
  | Some f =>
      if decide (f = "") then None
      else Some {| filename := f; description := final_description (d_description cur);
                   source_index := d_source_index cur; metadata := d_metadata cur |}
  | None => None
  end.

(** "Skipped an entry without a file name in <file_path>" *)
Definition skipped_message (file_path : string) : string :=
  "Пропущена запись без имени файла в " +:+ file_path.

(** "Error while reading the file <file_path>: <exception>" *)
Definition read_error_message (file_path exc : string) : string :=
  "Ошибка при чтении файла " +:+ file_path +:+ ": " +:+ exc.

(** The loop state of [for entry_text in entries]: the flag
    [in_description], which is set once per call and lives across blocks,
    [results], and [self.errors]. *)
Record Loop : Type := {
  in_description : bool;
  results : list Entry;
  loop_errors : list string
}.

(** One turn of [for entry_text in entries]. *)
Definition process_block (self : Parser) (file_path : string) (st : Loop) (entry_text : string)
  : outcome Loop * list string :=
  if decide (Text.strip entry_text = "") then (Normal st, loop_errors st)
  else
    match process_lines (new_entry self, in_description st)
                        (Text.split Text.newline (Text.strip entry_text)) with
    | Raised e => (Raised e, loop_errors st)
    | Normal (cur, ind) =>
        match finish cur with
        | Some e =>
            (Normal {| in_description := ind; results := results st ++ [e];
                       loop_errors := loop_errors st |}, loop_errors st)
        | None =>
            let errs := loop_errors st ++ [skipped_message file_path] in
            (Normal {| in_description := ind; results := results st; loop_errors := errs |}, errs)
        end
    end.

(** The whole loop.  When a turn raises, the entries gathered so far are lost
    with the frame; the errors already appended to [self.errors] stay. *)
Fixpoint process_blocks (self : Parser) (file_path : string) (st : Loop) (blocks : list string)
  : outcome Loop * list string :=
  match blocks with
  | [] => (Normal st, loop_errors st)
  | b :: rest =>
      match process_block self file_path st b with
      | (Normal st', _) => process_blocks self file_path st' rest
      | (Raised e, errs) => (Raised e, errs)
      end
  end.

(** [parse_file]: the entries returned and the parser afterwards.  [rd] is
    the outcome of opening and reading [file_path]. *)
Definition parse_file (self : Parser) (file_path : string) (rd : read_result)
  : list Entry * Parser :=
  let self1 := {| source_path := Some (PurePath.of_string file_path); errors := errors self |} in
  match rd with
  | ReadFailed exc =>
      ([], {| source_path := source_path self1;
              errors := errors self1 ++ [read_error_message file_path exc] |})
  | ReadOk content =>
      let start := {| in_description := false; results := []; loop_errors := errors self1 |} in
      match process_blocks self1 file_path start (Text.split "///" content) with
      | (Normal st, errs) =>
          (results st, {| source_path := source_path self1; errors := errs |})
      | (Raised exc, errs) =>
          ([], {| source_path := source_path self1;
                  errors := errs ++ [read_error_message file_path exc] |})
      end
  end.

End IndexParser.

(** ** [json.dumps] with its default settings, on the values the program
    serialises *)
Module Json.

#[local] Unset Elimination Schemes.
Inductive value : Type :=
| Null
| Bool (b : bool)
| Int (z : Z)
| Str (s : string)
| Arr (items : list value)
| Obj (members : list (string * value)).
#[local] Set Elimination Schemes.

Definition quote : string := String (ascii_of_nat 34) EmptyString.
Definition backslash : string := String (ascii_of_nat 92) EmptyString.

Definition hex_digit (n : nat) : ascii :=
  if (n <? 10)%nat then ascii_of_nat (48 + n) else ascii_of_nat (87 + n).

(** One character under [ensure_ascii]. *)
Definition escape_char (c : ascii) : string :=
  let n := nat_of_ascii c in
  if (n =? 34)%nat then backslash +:+ quote
  else if (n =? 92)%nat then backslash +:+ backslash
  else if (n =? 10)%nat then backslash +:+ "n"
  else if (n =? 13)%nat then backslash +:+ "r"
  else if (n =? 9)%nat then backslash +:+ "t"
  else if (n =? 8)%nat then backslash +:+ "b"
  else if (n =? 12)%nat then backslash +:+ "f"
  else if ((32 <=? n) && (n <=? 126))%nat then String c EmptyString
  else backslash +:+ "u00" +:+ String (hex_digit (n / 16)) (String (hex_digit (n mod 16)) EmptyString).

Fixpoint escape (s : string) : string :=
  match s with
  | EmptyString => EmptyString
  | String c s' => escape_char c +:+ escape s'
  end.

Definition encode_string (s : string) : string := quote +:+ escape s +:+ quote.

Fixpoint dumps (v : value) : string :=
  match v with
  | Null => "null"
  | Bool true => "true"
  | Bool false => "false"
  | Int z => pretty z
  | Str s => encode_string s
  | Arr items => "[" +:+ Text.join ", " (map dumps items) +:+ "]"
  | Obj members =>
      "{" +:+ Text.join ", "
                (map (fun kv => match kv with
                                | (k, x) => encode_string k +:+ ": " +:+ dumps x
                                end) members) +:+ "}"
  end.

End Json.

(** ** SQLite: the integers it binds and what a column keeps of a value *)
Module Sql.

(** A signed 64-bit integer: what [sqlite3] binds of a Python [int]; any
    other [int] raises [OverflowError] when the statement is executed. *)
Definition int64 (z : Z) : Prop := (- 2 ^ 63 <= z < 2 ^ 63)%Z.

#[global] Instance int64_dec z : Decision (int64 z).
Proof. unfold int64. apply _. Defined.

(** The value of a column of NUMERIC affinity (declared [DATETIME], [DATE]
    or [JSON]): an INTEGER, a REAL or a TEXT. *)
Inductive cell : Type :=
| Integer (z : Z)
| Real (f : float)
| Text (s : string).

(** [sqlite3Isspace] and the value of a decimal digit. *)
Definition isspace (c : ascii) : bool :=
  let n := nat_of_ascii c in ((9 <=? n) && (n <=? 13) || (n =? 32))%nat.

Definition digit (c : ascii) : option Z :=
  let n := nat_of_ascii c in
  if ((48 <=? n) && (n <=? 57))%nat then Some (Z.of_nat n - 48)%Z else None.

Fixpoint skip_spaces (z : string) : string :=
  match z with
  | String c rest => if isspace c then skip_spaces rest else z
  | EmptyString => EmptyString
  end.

(** The significand stops growing at [(LARGEST_INT64 - 9) / 10]; the
    exponent is reduced while the significand stays below
    [LARGEST_INT64 / 10]. *)
Definition significand_limit : Z := 922337203685477579.
Definition reduce_limit : Z := 922337203685477580.

(** What the scan of a number has read: the value of the integer digits,
    the significand, the shift of the decimal point, and whether a digit
    was seen. *)
Record digits : Type := {
  whole : Z;
  significand : Z;
  shift : Z;
  seen : bool
}.

(** The digits before the decimal point: once the significand is at its
    limit the digits are skipped and counted. *)
Fixpoint int_digits (st : digits) (z : string) : digits * string :=
  match z with
  | String c rest =>
      match digit c with
      | Some v =>
          int_digits
            (if (significand_limit <=? significand st)%Z
             then {| whole := whole st * 10 + v; significand := significand st;
                     shift := shift st + 1; seen := seen st |}
             else {| whole := whole st * 10 + v; significand := significand st * 10 + v;
                     shift := shift st; seen := true |})
            rest
      | None => (st, z)
      end
  | EmptyString => (st, z)
  end.

(** The digits after the decimal point: once the significand is at its
    limit they are dropped. *)
Fixpoint frac_digits (st : digits) (z : string) : digits * string :=
  match z with
  | String c rest =>
      match digit c with
      | Some v =>
          frac_digits
            (if (significand st <? significand_limit)%Z
             then {| whole := whole st; significand := significand st * 10 + v;
                     shift := shift st - 1; seen := true |}
             else st)
            rest
      | None => (st, z)
      end
  | EmptyString => (st, z)
  end.

(** The digits of the exponent, capped at 10000, and whether there was
    one. *)
Fixpoint exp_digits (e : Z) (valid : bool) (z : string) : Z * bool * string :=
  match z with
  | String c rest =>
      match digit c with
      | Some v => exp_digits (if (e <? 10000)%Z then e * 10 + v else 10000)%Z true rest
      | None => (e, valid, z)
      end
  | EmptyString => (e, valid, z)
  end.

(** An optional sign: whether it is a minus, and the rest. *)
Definition sign (z : string) : bool * string :=
  match z with
  | String "-" rest => (true, rest)
  | String "+" rest => (false, rest)
  | _ => (false, z)
  end.

(** A text as [sqlite3AtoF] reads a number: [None] when the text is not a
    number from end to end (white space around it apart); else whether it is
    negative, what its digits gave, its decimal exponent, and whether it is
    written as an integer, with neither point nor exponent. *)
Definition scan (text : string) : option (bool * digits * Z * bool) :=
  match skip_spaces text with
  | EmptyString => None
  | z0 =>
      let '(negative, z1) := sign z0 in
      let '(st, z2) :=
        int_digits {| whole := 0; significand := 0; shift := 0; seen := false |} z1 in
      let '(st, point, z3) :=
        match z2 with
        | String "." rest => let '(st', z') := frac_digits st rest in (st', true, z')
        | _ => (st, false, z2)
        end in
      let '(e, valid, exponent, z4) :=
        match z3 with
        | String c rest =>
            if Ascii.eqb c "e" || Ascii.eqb c "E"
            then let '(minus, z') := sign rest in
                 let '(e, valid, z'') := exp_digits 0 false z' in
                 ((if minus then - e else e)%Z, valid, true, z'')
            else (0%Z, true, false, z3)
        | EmptyString => (0%Z, true, false, z3)
        end in
      match skip_spaces z4 with
      | EmptyString =>
          if seen st && valid
          then Some (negative, st, (e + shift st)%Z, negb point && negb exponent)
          else None
      | _ => None
      end
  end.

(** The exponent brought towards 0: the significand takes the powers of
    ten it can hold, or gives up its trailing zeros. *)
Fixpoint reduce (fuel : nat) (s e : Z) : Z * Z :=
  match fuel with
  | O => (s, e)
  | S fuel' =>
      if (0 <? e)%Z then
        if (reduce_limit <=? s)%Z then (s, e) else reduce fuel' (s * 10)%Z (e - 1)%Z
      else if (e <? 0)%Z then
        if (s mod 10 =? 0)%Z then reduce fuel' (s / 10)%Z (e + 1)%Z else (s, e)
      else (s, e)
  end.

(** SQLite 3.40 scales the significand by the power of ten in
    [long double], which on x86-64 has a significand of 64 bits, and then
    rounds to a double.  An extended number [(m, x)] is [m * 2^x]. *)
Definition extended : Type := Z * Z.

(** [m * 2^x] rounded to [bits] significant bits, to nearest, ties to
    even. *)
Definition round_to (bits m x : Z) : extended :=
  let n := (Z.log2 m + 1)%Z in
  if (n <=? bits)%Z then (m, x)
  else
    let sh := (n - bits)%Z in
    let q := Z.shiftr m sh in
    let r := (m mod 2 ^ sh)%Z in
    let half := (2 ^ (sh - 1))%Z in
    let q' := if (half <? r)%Z || ((r =? half)%Z && Z.odd q) then (q + 1)%Z else q in
    if (q' =? 2 ^ bits)%Z then (Z.shiftr q' 1, x + sh + 1)%Z else (q', x + sh)%Z.

Definition ext_mul (a b : extended) : extended :=
  round_to 64 (a.1 * b.1) (a.2 + b.2).

(** The quotient, with a last bit that tells whether it is inexact. *)
Definition ext_div (a b : extended) : extended :=
  let n := (a.1 * 2 ^ 200)%Z in
  let q := (n / b.1)%Z in
  let sticky := if (n mod b.1 =? 0)%Z then 0%Z else 1%Z in
  round_to 64 (2 * q + sticky) (a.2 - b.2 - 201).

(** [sqlite3Pow10]: the power of ten by repeated squaring. *)
Fixpoint pow10_loop (fuel : nat) (e : Z) (x r : extended) : extended :=
  match fuel with
  | O => r
  | S fuel' =>
      let r' := if Z.odd e then ext_mul r x else r in
      let e' := Z.shiftr e 1 in
      if (e' =? 0)%Z then r' else pow10_loop fuel' e' (ext_mul x x) r'
  end.

Definition pow10 (e : Z) : extended := pow10_loop 64 e (10, 0)%Z (1, 0)%Z.

(** An extended number, not 0, as a double: 53 bits, fewer below the
    normal range, 0 or the least double below that, infinity above. *)
Definition to_double (negative : bool) (v : extended) : float :=
  let '(m, x) := v in
  let top := (Z.log2 m + 1 + x)%Z in
  let bits := if (- 1021 <=? top)%Z then 53%Z else (top + 1074)%Z in
  if (bits <=? 0)%Z then
    let least := SF2Prim (S754_finite negative 1 (- 1074)) in
    if (m <=? 2 ^ (- 1075 - x))%Z then SF2Prim (S754_zero negative) else least
  else
    let '(q, x') := round_to bits m x in
    SF2Prim (S754_finite negative (Z.to_pos q) x').

(** The double of [s * 10^e] for [0 < s] and an exponent that is not 0, as
    [sqlite3AtoF] computes it. *)
Definition scaled (negative : bool) (s e : Z) : float :=
  let n := Z.abs e in
  let signed (f : float) := if negative then PrimFloat.opp f else f in
  if (307 <? n)%Z then
    if (n <? 342)%Z then
      let scale := pow10 (n - 308) in
      if (e <? 0)%Z
      then signed (PrimFloat.div (to_double false (ext_div (s, 0%Z) scale))
                                 0x1.1ccf385ebc8a0p+1023)
      else signed (PrimFloat.mul (to_double false (ext_mul (s, 0%Z) scale))
                                 0x1.1ccf385ebc8a0p+1023)
    else if (e <? 0)%Z then SF2Prim (S754_zero negative)
    else SF2Prim (S754_infinity negative)
  else
    let scale := pow10 n in
    if (e <? 0)%Z then to_double negative (ext_div (s, 0%Z) scale)
    else to_double negative (ext_mul (s, 0%Z) scale).

(** The whole number a double is, if it is one. *)
Definition whole_value (f : float) : option Z :=
  match Prim2SF f with
  | S754_zero _ => Some 0%Z
  | S754_finite negative m e =>
      let n := if negative then Zneg m else Zpos m in
      if (0 <=? e)%Z then Some (n * 2 ^ e)%Z
      else if (n mod 2 ^ (- e) =? 0)%Z then Some (n / 2 ^ (- e))%Z
      else None
  | _ => None
  end.

(** A REAL in a column of NUMERIC affinity: a whole number strictly between
    the smallest and the largest 64-bit integer is kept as an INTEGER. *)
Definition real_cell (f : float) : cell :=
  match whole_value f with
  | Some z => if decide (- 2 ^ 63 < z < 2 ^ 63 - 1)%Z then Integer z else Real f
  | None => Real f
  end.

(** A Python [float] bound to a column of NUMERIC affinity; a NaN is bound
    as NULL. *)
Definition real_affinity (f : float) : option cell :=
  if PrimFloat.is_nan f then None else Some (real_cell f).

(** [(double)s] for [0 <= s < 2^63], with its sign. *)
Definition double_of (negative : bool) (s : Z) : float :=
  let r := PrimFloat.of_uint63 (Uint63.of_Z s) in
  if negative then PrimFloat.opp r else r.

(** A text bound to a column of NUMERIC affinity: a text that is not a
    number stays a TEXT; one written as an integer of 64 bits is that
    INTEGER; any other number is a REAL, or the INTEGER it equals. *)
Definition numeric_affinity (text : string) : cell :=
  match scan text with
  | None => Text text
  | Some (negative, st, e, integer_text) =>
      let v := if negative then (- whole st)%Z else whole st in
      if integer_text && bool_decide (int64 v) then Integer v
      else if (significand st =? 0)%Z then Integer 0
      else
        let '(s, e') := reduce (Z.abs_nat e) (significand st) e in
        if (e' =? 0)%Z then real_cell (double_of negative s)
        else real_cell (scaled negative s e')
  end.

End Sql.

(** ** [src/database/db_manager.py]

    The database is the three tables of [init_database], each a list of rows
    in rowid order.  A column declared [NOT NULL] holds a plain value, any
    other column an optional one; the columns declared [DATETIME], [DATE]
    and [JSON] have NUMERIC affinity and hold a [Sql.cell].  Foreign keys
    are not enforced (SQLite's default), and every statement is committed
    before the method returns, so a method that raises leaves the store as
    it was. *)
Module Store.

(** [file_data], the parameters bound by [add_file]. *)
Record FileData : Type := {
  fd_filename : option string;
  fd_full_path : option string;
  fd_file_type : option string;
  fd_size : option Z;
  fd_modified_date : option string;
  fd_category : option string;
  fd_processed : option bool
}.

Record FileRow : Type := {
  f_id : Z;
  f_filename : string;
  f_full_path : string;
  f_file_type : option string;
  f_size : option Z;
  f_modified_date : option Sql.cell;
  f_category : option string;
  f_processed : option bool
}.

(** [annotation_data] *)
Record AnnotationData : Type := {
  ad_file_id : option Z;
  ad_annotation_date : option string;
  ad_description : option string;
  ad_source_index : option string
}.

Record AnnotationRow : Type := {
  a_id : Z;
  a_file_id : option Z;
  a_annotation_date : option Sql.cell;
  a_description : option string;
  a_source_index : option string
}.

(** [content_data]; the ['metadata'] key may be missing ([None]). *)
Record ContentData : Type := {
  cd_file_id : option Z;
  cd_raw_text : option string;
  cd_cleaned_text : option string;
  cd_metadata : option Json.value
}.

Record ContentRow : Type := {
  c_id : Z;
  c_file_id : option Z;
  c_raw_text : option string;
  c_cleaned_text : option string;
  c_metadata : option Sql.cell
}.

Record t : Type := {
  files : list FileRow;
  annotations : list AnnotationRow;
  content : list ContentRow
}.

(** The tables right after [init_database] on a new file. *)
Definition empty : t := {| files := []; annotations := []; content := [] |}.

(** The rowid SQLite gives a new row of an [INTEGER PRIMARY KEY] table: one
    more than the largest in use, 1 in an empty table. *)
Definition next_rowid (ids : list Z) : Z :=
  match ids with
  | [] => 1
  | i :: rest => foldr Z.max i rest + 1
  end.

(** [SELECT id FROM files WHERE full_path = ?], then [fetchone()]: a NULL
    parameter matches no row. *)
Definition select_file (s : t) (path : option string) : option FileRow :=
  match path with
  | Some p => List.find (fun r => bool_decide (f_full_path r = p)) (files s)
  | None => None
  end.

(** A Python [int], or [None], that [sqlite3] binds to a parameter. *)
Definition fits (z : option Z) : Prop := from_option Sql.int64 True z.

#[global] Instance fits_dec z : Decision (fits z).
Proof. unfold fits. destruct z; apply _. Defined.

(** A file id that [sqlite3] binds to a parameter.  SQLite gives out rowids
    of 64 bits; the model gives them out without bound ([next_rowid]), so
    it takes the id of a file row as it is: in a database of SQLite every
    such id has 64 bits. *)
Definition bindable (s : t) (file_id : option Z) : Prop :=
  match file_id with
  | Some z => Sql.int64 z \/ z ∈ f_id <$> files s
  | None => True
  end.

#[global] Instance bindable_dec s file_id : Decision (bindable s file_id).
Proof. unfold bindable. destruct file_id; apply _. Defined.

(** The [INSERT OR IGNORE INTO files ...] once its parameters are bound: the
    new rowid when a row went in ([rowcount] 1), [None] when the row was
    skipped ([rowcount] 0) for a NULL in a [NOT NULL] column or a
    [full_path] already there.  The date goes through the affinity of its
    column. *)
Definition insert_file_row (s : t) (d : FileData) : option Z * t :=
  match fd_filename d, fd_full_path d with
  | Some fn, Some p =>
      match select_file s (Some p) with
      | Some _ => (None, s)
      | None =>
          let i := next_rowid (f_id <$> files s) in
          (Some i,
           {| files := files s ++
                [ {| f_id := i; f_filename := fn; f_full_path := p;
                     f_file_type := fd_file_type d; f_size := fd_size d;
                     f_modified_date := Sql.numeric_affinity <$> fd_modified_date d;
                     f_category := fd_category d; f_processed := fd_processed d |} ];
              annotations := annotations s; content := content s |})
      end
  | _, _ => (None, s)
  end.

(** [cursor.execute("INSERT OR IGNORE INTO files ...", file_data)]: a size
    outside 64 bits cannot be bound, and nothing is written. *)
Definition insert_or_ignore_file (s : t) (d : FileData) : outcome (option Z * t) :=
  if decide (fits (fd_size d)) then Normal (insert_file_row s d)
  else Raised "OverflowError".

Definition add_file (s : t) (file_data : FileData) : outcome (Z * t) :=
  match insert_or_ignore_file s file_data with
  | Raised exc => Raised exc
  | Normal (None, s') =>
      match select_file s' (fd_full_path file_data) with
      | Some r => Normal (f_id r, s')
      | None => Raised "TypeError"
      end
  | Normal (Some lastrowid, s') => Normal (lastrowid, s')
  end.

(** [SELECT id FROM annotations WHERE file_id = ? AND source_index = ?],
    then [fetchone()]. *)
Definition select_annotation (s : t) (file_id : option Z) (source : option string)
  : option AnnotationRow :=
  match file_id, source with
  | Some f, Some src =>
      List.find (fun r => bool_decide (a_file_id r = Some f ∧ a_source_index r = Some src))
                (annotations s)
  | _, _ => None
  end.

(** [add_annotation]: the [SELECT] binds the file id first, so a file id
    outside 64 bits raises before anything is looked up. *)
Definition add_annotation (s : t) (annotation_data : AnnotationData) : outcome (Z * t) :=
  if decide (bindable s (ad_file_id annotation_data)) then
    match select_annotation s (ad_file_id annotation_data)
                            (ad_source_index annotation_data) with
    | Some existing => Normal (a_id existing, s)
    | None =>
        let i := next_rowid (a_id <$> annotations s) in
        Normal (i,
                {| files := files s;
                   annotations := annotations s ++
                     [ {| a_id := i; a_file_id := ad_file_id annotation_data;
                          a_annotation_date :=
                            Sql.numeric_affinity <$> ad_annotation_date annotation_data;
                          a_description := ad_description annotation_data;
                          a_source_index := ad_source_index annotation_data |} ];
                   content := content s |})
    end
  else Raised "OverflowError".

(** The rows [INSERT OR REPLACE] removes for [UNIQUE(file_id)]: those with the
    same file id, none for a NULL. *)
Definition conflicts (file_id : option Z) (r : ContentRow) : Prop :=
  is_Some file_id ∧ c_file_id r = file_id.

#[global] Instance conflicts_dec file_id r : Decision (conflicts file_id r).
Proof. unfold conflicts. apply _. Defined.

(** [add_content] returns the rowid, the store, and [content_data] as the
    method leaves it: it writes the serialised metadata back into the
    caller's dict.  The parameters are bound in the order of the statement:
    a file id outside 64 bits raises first, a missing ['metadata'] next.
    The text of the metadata goes through the affinity of its column. *)
Definition add_content (s : t) (content_data : ContentData) : outcome (Z * t * ContentData) :=
  if decide (bindable s (cd_file_id content_data)) then
    match cd_metadata content_data with
    | None => Raised "ProgrammingError"
    | Some m =>
        let text := Json.dumps m in
        let content_data' :=
          {| cd_file_id := cd_file_id content_data; cd_raw_text := cd_raw_text content_data;
             cd_cleaned_text := cd_cleaned_text content_data;
             cd_metadata := Some (Json.Str text) |} in
        let i := next_rowid (c_id <$> content s) in
        Normal (i,
                {| files := files s; annotations := annotations s;
                   content :=
                     filter (fun r => ¬ conflicts (cd_file_id content_data) r) (content s) ++
                     [ {| c_id := i; c_file_id := cd_file_id content_data;
                          c_raw_text := cd_raw_text content_data;
                          c_cleaned_text := cd_cleaned_text content_data;
                          c_metadata := Some (Sql.numeric_affinity text) |} ] |},
                content_data')
    end
  else Raised "OverflowError".

(** [get_file_by_path] *)
Definition get_file_by_path (s : t) (full_path : string) : option FileRow :=
  select_file s (Some full_path).

Definition unprocessed (r : FileRow) : Prop := f_processed r = Some false.

#[global] Instance unprocessed_dec r : Decision (unprocessed r).
Proof. unfold unprocessed. apply _. Defined.

(** [get_unprocessed_files], for a [limit] that is a count of 64 bits, as the
    batch sizes of the callers are. *)
Definition get_unprocessed_files (s : t) (limit : nat) : list FileRow :=
  take limit (filter unprocessed (files s)).

Definition set_processed (r : FileRow) : FileRow :=
  {| f_id := f_id r; f_filename := f_filename r; f_full_path := f_full_path r;
     f_file_type := f_file_type r; f_size := f_size r;
     f_modified_date := f_modified_date r; f_category := f_category r;
     f_processed := Some true |}.

(** [mark_as_processed], as the store it leaves.  An id of more than 64 bits
    has no row in a database of SQLite: the call raises [OverflowError] and
    the store stays as it is, which is what the UPDATE gives for an id
    without a row. *)
Definition mark_as_processed (s : t) (file_id : Z) : t :=
  {| files := (fun r => if decide (f_id r = file_id) then set_processed r else r) <$> files s;
     annotations := annotations s; content := content s |}.

(** The calls that write to the store. *)
Inductive op : Type :=
| AddFile (d : FileData)
| AddAnnotation (d : AnnotationData)
| AddContent (d : ContentData)
| MarkAsProcessed (file_id : Z).

(** The store after a call; a call that raises changes nothing. *)
Definition run (s : t) (o : op) : t :=
  match o with
  | AddFile d => match add_file s d with Normal (_, s') => s' | Raised _ => s end
  | AddAnnotation d => match add_annotation s d with Normal (_, s') => s' | Raised _ => s end
  | AddContent d => match add_content s d with Normal (_, s', _) => s' | Raised _ => s end
  | MarkAsProcessed i => mark_as_processed s i
  end.

End Store.

(** ** [src/utils/stats_analyzer.py] *)
Module Stats.

(** A [collections.Counter] keyed by strings. *)
Abbreviation Counter := (gmap string nat).

(** [counter[key]] *)
Definition count (c : Counter) (key : string) : nat := default 0%nat (c !! key).

(** [counter[key] += 1] *)
Definition incr (key : string) (c : Counter) : Counter := <[key := S (count c key)]> c.

(** The entry dict as [add_entry] reads it.  A key may be missing (outer
    [None]); the value under ['category'] or ['author'] may be Python's
    [None] (inner [None]). *)
Record MetaDict : Type := {
  m_category : option (option string);
  m_tags : option (list string);
  m_systems : option (list string);
  m_author : option (option string)
}.

Record EntryDict : Type := {
  e_filename : option string;
  e_metadata : option MetaDict
}.

Record StatsAnalyzer : Type := {
  total_entries : nat;
  total_files : nat;
  categories : Counter;
  tags : Counter;
  systems : Counter;
  file_types : Counter;
  authors : Counter;
  errors : list string
}.

(** [StatsAnalyzer()] *)
Definition new : StatsAnalyzer :=
  {| total_entries := 0; total_files := 0; categories := ∅; tags := ∅; systems := ∅;
     file_types := ∅; authors := ∅; errors := [] |}.

(** [value or fallback] for a value that is a string or [None]. *)
Definition or_else (v : option string) (fallback : string) : string :=
  match v with
  | Some s => if decide (s = "") then fallback else s
  | None => fallback
  end.

(** [for x in items: if x: counter[x] += 1] *)
Definition incr_all (items : list string) (c : Counter) : Counter :=
  foldl (fun acc x => if decide (x = "") then acc else incr x acc) c items.

(** [Path(filename).suffix.lstrip('.') or 'no_extension'] *)
Definition file_type_of (filename : string) : string :=
  or_else (Some (Text.lstrip_char "." (PurePath.suffix (PurePath.of_string filename))))
          "no_extension".

Definition add_entry (self : StatsAnalyzer) (entry : EntryDict) : StatsAnalyzer :=
  let meta (A : Type) (key : MetaDict -> option A) : option A := e_metadata entry ≫= key in
  {| total_entries := S (total_entries self);
     total_files := total_files self;
     categories :=
       match meta _ m_category with
       | Some c => incr (or_else c "unknown") (categories self)
       | None => categories self
       end;
     tags :=
       match meta _ m_tags with
       | Some l => incr_all l (tags self)
       | None => tags self
       end;
     systems :=
       match meta _ m_systems with
       | Some l => incr_all l (systems self)
       | None => systems self
       end;
     file_types :=
       match e_filename entry with
       | Some f => incr (file_type_of f) (file_types self)
       | None => file_types self
       end;
     authors :=
       match meta _ m_author with
       | Some a => incr (or_else a "unknown") (authors self)
       | None => authors self
       end;
     errors := errors self |}.

Definition add_error (self : StatsAnalyzer) (error : string) : StatsAnalyzer :=
  {| total_entries := total_entries self; total_files := total_files self;
     categories := categories self; tags := tags self; systems := systems self;
     file_types := file_types self; authors := authors self;
     errors := errors self ++ [error] |}.

(** An entry as the parser returns it, read as a dict: every key is there. *)
Definition of_entry (e : IndexParser.Entry) : EntryDict :=
  let m := IndexParser.metadata e in
  {| e_filename := Some (IndexParser.filename e);
     e_metadata := Some {| m_category := Some (Some (IndexParser.category m));
                           m_tags := Some (IndexParser.tags m);
                           m_systems := Some (IndexParser.systems m);
                           m_author := Some (IndexParser.author m) |} |}.

End Stats.

(** ** [tools/analyze_coverage.py]

    Of the analyzer's state the sets of paths and file names and the category
    tally are kept, of its report the summary; the extension and directory
    tallies feed neither. *)
Module Coverage.

(** A Python number: the percentage is a float, or the integer 0. *)
Inductive number : Type :=
| PyInt (z : Z)
| PyFloat (f : float).

(** [float(n)] for [0 <= n < 2^63]; below [2^53] it is exact, and Python's
    [a / b] on such integers is the float division of the two. *)
Definition float_of_Z (n : Z) : float := PrimFloat.of_uint63 (Uint63.of_Z n).

Record CoverageAnalyzer : Type := {
  all_files : gset string;
  indexed_files : gset string;
  categories : gmap string nat
}.

(** [CoverageAnalyzer(all_files_path)] *)
Definition new : CoverageAnalyzer :=
  {| all_files := ∅; indexed_files := ∅; categories := ∅ |}.

(** [load_all_files], on the lines of the manifest. *)
Definition load_all_files (self : CoverageAnalyzer) (lines : list string) : CoverageAnalyzer :=
  foldl (fun a line =>
           let filepath := Text.strip line in
           if decide (filepath = "") then a
           else {| all_files := all_files a ∪ {[filepath]};
                   indexed_files := indexed_files a; categories := categories a |})
        self lines.

(** [needle in haystack] on strings. *)
Fixpoint contains (needle haystack : string) : bool :=
  Text.startswith needle haystack ||
  match haystack with
  | String _ rest => contains needle rest
  | EmptyString => false
  end.

(** The [categories] dict of the analyzer's [_determine_category], in
    insertion order: marker, then category. *)
Definition rules : list (string * string) :=
  [ ("exploits", "exploit");
    ("shellcodes", "shellcode");
    ("util", "tool");
    ("Doc", "doc");
    ("systemerror", "error") ].

Fixpoint scan_rules (part : string) (rs : list (string * string)) : option string :=
  match rs with
  | [] => None
  | (marker, cat) :: rest => if contains marker part then Some cat else scan_rules part rest
  end.

Fixpoint scan_parts (path_parts : list string) : option string :=
  match path_parts with
  | [] => None
  | part :: rest =>
      match scan_rules part rules with
      | Some cat => Some cat
      | None => scan_parts rest
      end
  end.

Definition _determine_category (index_path : string) : string :=
  default "unknown" (scan_parts (PurePath.parts (PurePath.of_string index_path))).

(** [for line in entry.split('\n')]: the first [File Name:] line with a
    non-empty value, if any. *)
Fixpoint first_filename (lines : list string) : outcome (option string) :=
  match lines with
  | [] => Normal None
  | line :: rest =>
      if Text.startswith "File Name:" (Text.strip line) then
        after ← py_index (Text.split1 ":" line) 1;
        let filename := Text.strip after in
        if decide (filename = "") then first_filename rest else Normal (Some filename)
      else first_filename rest
  end.

(** One turn of [for entry in entries]. *)
Definition process_entry (category : string) (self : CoverageAnalyzer) (entry : string)
  : outcome CoverageAnalyzer :=
  if decide (Text.strip entry = "") then Normal self
  else
    found ← first_filename (Text.split Text.newline entry);
    match found with
    | Some filename =>
        Normal {| all_files := all_files self;
                  indexed_files := indexed_files self ∪ {[filename]};
                  categories := Stats.incr category (categories self) |}
    | None => Normal self
    end.

Fixpoint process_entries (category : string) (self : CoverageAnalyzer) (entries : list string)
  : outcome CoverageAnalyzer :=
  match entries with
  | [] => Normal self
  | e :: rest => self' ← process_entry category self e; process_entries category self' rest
  end.

(** [process_index_file], on the text read from [index_path]. *)
Definition process_index_file (self : CoverageAnalyzer) (index_path content : string)
  : outcome CoverageAnalyzer :=
  process_entries (_determine_category index_path) self (Text.split "///" content).

(** [report['summary']] *)
Record Summary : Type := {
  s_total_files : Z;
  s_indexed_files : Z;
  s_coverage_percent : number;
  s_missing_files : Z
}.

(** The summary of [generate_report]. *)
Definition generate_report (self : CoverageAnalyzer) : Summary :=
  let total_files := Z.of_nat (size (all_files self)) in
  let indexed_files := Z.of_nat (size (indexed_files self)) in
  let coverage :=
    if (0 <? total_files)%Z
    then PyFloat (PrimFloat.mul (PrimFloat.div (float_of_Z indexed_files) (float_of_Z total_files))
                                (float_of_Z 100))
    else PyInt 0 in
  {| s_total_files := total_files;
     s_indexed_files := indexed_files;
     s_coverage_percent := coverage;
     s_missing_files := total_files - indexed_files |}.

(** [main]: load the manifest, then process the index files in turn, each
    given as its path and text. *)
Fixpoint process_all (self : CoverageAnalyzer) (index_files : list (string * string))
  : outcome CoverageAnalyzer :=
  match index_files with
  | [] => Normal self
  | (path, content) :: rest =>
      self' ← process_index_file self path content; process_all self' rest
  end.

Definition analyze (manifest : list string) (index_files : list (string * string))
  : outcome Summary :=
  a ← process_all (load_all_files new manifest) index_files; Normal (generate_report a).

End Coverage.

(** ** [tools/process_indexes.py]: the single writer *)
Module Pipeline.

(** [validate_entry] *)
Definition validate_entry (entry : IndexParser.Entry) : bool :=
  bool_decide (IndexParser.filename entry ≠ "" ∧ IndexParser.description entry ≠ "" ∧
               IndexParser.source_index entry ≠ "").

(** [entry["metadata"]] as a JSON value, keys in the order the parser
    creates them. *)
Definition metadata_json (m : IndexParser.Metadata) : Json.value :=
  Json.Obj
    [ ("tags", Json.Arr (Json.Str <$> IndexParser.tags m));
      ("systems", Json.Arr (Json.Str <$> IndexParser.systems m));
      ("hashes", Json.Obj ((fun kv => (kv.1, Json.Str kv.2)) <$> IndexParser.hashes m));
      ("author", from_option Json.Str Json.Null (IndexParser.author m));
      ("category", Json.Str (IndexParser.category m)) ].

Definition file_data (index_path : string) (entry : IndexParser.Entry) : Store.FileData :=
  let f := IndexParser.filename entry in
  {| Store.fd_filename := Some f;
     Store.fd_full_path :=
       Some (PurePath.to_string
               (PurePath.joinpath (PurePath.parent (PurePath.of_string index_path)) f));
     Store.fd_file_type := Some (Text.lstrip_char "." (PurePath.suffix (PurePath.of_string f)));
     Store.fd_size := Some 0%Z;
     Store.fd_modified_date := None;
     Store.fd_category := Some (IndexParser.category (IndexParser.metadata entry));
     Store.fd_processed := Some false |}.

Definition annotation_data (file_id : Z) (entry : IndexParser.Entry) : Store.AnnotationData :=
  {| Store.ad_file_id := Some file_id;
     Store.ad_annotation_date := None;
     Store.ad_description := Some (IndexParser.description entry);
     Store.ad_source_index := Some (IndexParser.source_index entry) |}.

(** The metadata handed to [add_content] is already serialised once. *)
Definition content_data (file_id : Z) (entry : IndexParser.Entry) : Store.ContentData :=
  {| Store.cd_file_id := Some file_id;
     Store.cd_raw_text := None;
     Store.cd_cleaned_text := None;
     Store.cd_metadata :=
       Some (Json.Str (Json.dumps (metadata_json (IndexParser.metadata entry)))) |}.

(** The processor: the run mode and its two sinks. *)
Record IndexProcessor : Type := {
  dry_run : bool;
  db : Store.t;
  stats : Stats.StatsAnalyzer
}.

Definition with_db (self : IndexProcessor) (s : Store.t) : IndexProcessor :=
  {| dry_run := dry_run self; db := s; stats := stats self |}.

(** The body of [for entry in entries]: the three writes, each committed on
    its own; an exception ends the entry and the loop goes on. *)
Definition save_entry (index_path : string) (st : IndexProcessor * nat)
    (entry : IndexParser.Entry) : IndexProcessor * nat :=
  let '(self, processed) := st in
  if dry_run self then
    ({| dry_run := dry_run self; db := db self;
        stats := Stats.add_entry (stats self) (Stats.of_entry entry) |}, S processed)
  else
    match Store.add_file (db self) (file_data index_path entry) with
    | Raised _ => (self, processed)
    | Normal (file_id, s1) =>
        match Store.add_annotation s1 (annotation_data file_id entry) with
        | Raised _ => (with_db self s1, processed)
        | Normal (_, s2) =>
            match Store.add_content s2 (content_data file_id entry) with
            | Raised _ => (with_db self s2, processed)
            | Normal (_, s3, _) => (with_db self s3, S processed)
            end
        end
    end.

(** [save_entries_to_db]: the processor afterwards and the count returned. *)
Definition save_entries_to_db (self : IndexProcessor)
    (entries_batch : list (string * list IndexParser.Entry)) : IndexProcessor * nat :=
  foldl (fun st item => foldl (save_entry item.1) st item.2) (self, 0%nat) entries_batch.

End Pipeline.

(** ** [tools/check_db.py]: the table counts and the two integrity checks *)
Module CheckDb.
Import Store.

(** The row counts of [files], [annotations] and [content]. *)
Definition table_counts (s : t) : nat * nat * nat :=
  (length (files s), length (annotations s), length (content s)).

(** [files f LEFT JOIN annotations a ON f.id = a.file_id WHERE a.id IS NULL],
    counted: the file rows that no annotation row refers to. *)
Definition files_without_annotations (s : t) : nat :=
  length (filter (fun f => Forall (fun a => a_file_id a <> Some (f_id f)) (annotations s))
                 (files s)).

(** The same join with [content]: the file rows that no content row refers
    to. *)
Definition files_without_content (s : t) : nat :=
  length (filter (fun f => Forall (fun c => c_file_id c <> Some (f_id f)) (content s))
                 (files s)).

End CheckDb.

(** ** [src/main.py]: the dataset builder *)
Module Builder.
Import Store.

(** A value of an entry of the parser: text, or the metadata mapping. *)
Inductive item : Type :=
| IText (s : string)
| IMeta (m : IndexParser.Metadata).

(** The entry as the dict the parser built, keys in the order it sets them. *)
Definition items (annotation : IndexParser.Entry) : list (string * item) :=
  [ ("metadata", IMeta (IndexParser.metadata annotation));
    ("description", IText (IndexParser.description annotation));
    ("source_index", IText (IndexParser.source_index annotation));
    ("filename", IText (IndexParser.filename annotation)) ].

(** [d.get(key)] *)
Definition dict_get {A : Type} (key : string) (d : list (string * A)) : option A :=
  snd <$> List.find (fun kv => bool_decide (kv.1 = key)) d.

(** [annotation[key]] *)
Definition getitem (annotation : IndexParser.Entry) (key : string) : outcome item :=
  match dict_get key (items annotation) with
  | Some v => Normal v
  | None => Raised "KeyError"
  end.

(** A value used where text is needed. *)
Definition text (v : item) : outcome string :=
  match v with
  | IText s => Normal s
  | IMeta _ => Raised "TypeError"
  end.

(** A value used as a mapping: the metadata with its five keys. *)
Definition mapping (v : item) : outcome (list (string * Json.value)) :=
  match v with
  | IMeta m =>
      match Pipeline.metadata_json m with
      | Json.Obj members => Normal members
      | _ => Raised "AttributeError"
      end
  | IText _ => Raised "AttributeError"
  end.

(** [v[0]] *)
Definition first_item (v : Json.value) : outcome Json.value :=
  match v with
  | Json.Arr l => py_index l 0
  | Json.Str (String c _) => Normal (Json.Str (String c EmptyString))
  | Json.Str EmptyString => Raised "IndexError"
  | Json.Obj _ => Raised "KeyError"
  | _ => Raised "TypeError"
  end.

(** A value bound to the [category] column, of type TEXT; [sqlite3] refuses
    a list or a dict. *)
Definition bound (v : Json.value) : outcome (option string) :=
  match v with
  | Json.Null => Normal None
  | Json.Str s => Normal (Some s)
  | Json.Int z => Normal (Some (pretty z))
  | Json.Bool b => Normal (Some (if b then "1" else "0"))
  | _ => Raised "ProgrammingError"
  end.

(** [annotation["metadata"].get("categories", [None])[0]] *)
Definition first_category (annotation : IndexParser.Entry) : outcome (option string) :=
  m ← getitem annotation "metadata" ≫= mapping;
  first_item (default (Json.Arr [Json.Null]) (dict_get "categories" m)) ≫= bound.

(** The [file_data] of [process_index_files]. *)
Definition file_data (root_dir : PurePath.t) (annotation : IndexParser.Entry)
  : outcome FileData :=
  filename ← getitem annotation "filename" ≫= text;
  category ← first_category annotation;
  Normal {| fd_filename := Some filename;
            fd_full_path := Some (PurePath.to_string (PurePath.joinpath root_dir filename));
            fd_file_type := Some (PurePath.suffix (PurePath.of_string filename));
            fd_size := Some 0%Z;
            fd_modified_date := None;
            fd_category := category;
            fd_processed := Some false |}.

(** The [annotation_data] of [process_index_files]. *)
Definition annotation_data (file_id : Z) (annotation : IndexParser.Entry)
  : outcome AnnotationData :=
  annotation_date ← getitem annotation "annotation_date" ≫= text;
  description ← getitem annotation "description" ≫= text;
  source_index ← getitem annotation "source_index" ≫= text;
  Normal {| ad_file_id := Some file_id;
            ad_annotation_date := Some annotation_date;
            ad_description := Some description;
            ad_source_index := Some source_index |}.

(** The body of [for annotation in annotations]: the store afterwards, and
    whether the body raised. *)
Definition save_annotation (root_dir : PurePath.t) (s : t) (annotation : IndexParser.Entry)
  : t * outcome unit :=
  match file_data root_dir annotation with
  | Raised e => (s, Raised e)
  | Normal fd =>
      match add_file s fd with
      | Raised e => (s, Raised e)
      | Normal (file_id, s1) =>
          match annotation_data file_id annotation with
          | Raised e => (s1, Raised e)
          | Normal ad =>
              match add_annotation s1 ad with
              | Raised e => (s1, Raised e)
              | Normal (_, s2) => (s2, Normal tt)
              end
          end
      end
  end.

(** The loop over the annotations of one index file; the [try] is around the
    loop, so the first exception ends it. *)
Fixpoint save_annotations (root_dir : PurePath.t) (s : t)
    (annotations : list IndexParser.Entry) : t * outcome unit :=
  match annotations with
  | [] => (s, Normal tt)
  | annotation :: rest =>
      match save_annotation root_dir s annotation with
      | (s', Normal _) => save_annotations root_dir s' rest
      | (s', Raised e) => (s', Raised e)
      end
  end.

(** The builder: its store, the path of the manifest and its parser. *)
Record SecurityDatasetBuilder : Type := {
  db_manager : Store.t;
  files_list_path : PurePath.t;
  index_parser : IndexParser.Parser
}.

(** The body of [for index_file in index_files]; [index_file] is the path as
    text and what reading it gives. *)
Definition process_index_file (self : SecurityDatasetBuilder)
    (index_file : string * IndexParser.read_result) : SecurityDatasetBuilder :=
  let root_dir := PurePath.parent (files_list_path self) in
  let '(annotations, parser) :=
    IndexParser.parse_file (index_parser self) index_file.1 index_file.2 in
  {| db_manager := (save_annotations root_dir (db_manager self) annotations).1;
     files_list_path := files_list_path self;
     index_parser := parser |}.

(** [process_index_files], given the index files that [rglob] found. *)
Definition process_index_files (self : SecurityDatasetBuilder)
    (index_files : list (string * IndexParser.read_result)) : SecurityDatasetBuilder :=
  foldl process_index_file self index_files.

(** What [Path(full_path)] gives on disk: nothing, a file with its
    [st_size] and [st_mtime], or an exception of [stat]. *)
Inductive probe : Type :=
| Absent
| Present (st_size : Z) (st_mtime : float)
| Failed (exc : string).

(** [UPDATE files SET size = ?, modified_date = ? WHERE id = ?]: the
    timestamp is a float, which the column keeps as a REAL, or as an INTEGER
    when it is a whole number. *)
Definition update_stat (s : t) (size : Z) (modified_date : float) (file_id : Z) : t :=
  {| files :=
       (fun r =>
          if decide (f_id r = file_id)
          then {| f_id := f_id r; f_filename := f_filename r; f_full_path := f_full_path r;
                  f_file_type := f_file_type r; f_size := Some size;
                  f_modified_date := Sql.real_affinity modified_date;
                  f_category := f_category r;
                  f_processed := f_processed r |}
          else r) <$> files s;
     annotations := annotations s; content := content s |}.

Section process_files.
Variable disk : string -> probe.

(** The body of [for file_data in files]. *)
Definition process_file (s : t) (file_data : FileRow) : t :=
  match disk (f_full_path file_data) with
  | Present st_size st_mtime =>
      mark_as_processed (update_stat s st_size st_mtime (f_id file_data)) (f_id file_data)
  | Absent => s
  | Failed _ => s
  end.

(** [process_files]: [None] when the loop has not ended after [fuel]
    fetches. *)
Fixpoint process_files (fuel : nat) (s : t) (batch_size : nat) : option t :=
  match fuel with
  | O => None
  | S fuel' =>
      match get_unprocessed_files s batch_size with
      | [] => Some s
      | files => process_files fuel' (foldl process_file s files) batch_size
      end
  end.

End process_files.

End Builder.

(** ** [tools/process_indexes.py]: the batches of [process_all_indexes] *)
Module Batches.
Import Pipeline.

(** [range(0, n, step)] *)
Definition range_step (n step : nat) : list nat :=
  (fun k => k * step) <$> seq 0 ((n + step - 1) / step).

(** [l[i:j]] for [0 <= i <= j] *)
Definition slice {A : Type} (l : list A) (i j : nat) : list A :=
  take (j - i) (drop i l).

Definition batch_size : nat := 10.

Section process_all_indexes.
(** The worker run in the pool: an index file to its path and entries. *)
Variable process_index_file : string -> string * list IndexParser.Entry.

(** The body of [for i in range(0, len(index_files), batch_size)]. *)
Definition process_batch (index_files : list string) (st : IndexProcessor * nat) (i : nat)
  : IndexProcessor * nat :=
  let batch := slice index_files i (i + batch_size) in
  let results := process_index_file <$> batch in
  let '(self, processed) := save_entries_to_db st.1 results in
  (self, st.2 + processed).

(** [process_all_indexes]: the processor afterwards and [total_processed]. *)
Definition process_all_indexes (self : IndexProcessor) (index_files : list string)
  : IndexProcessor * nat :=
  foldl (process_batch index_files) (self, 0) (range_step (length index_files) batch_size).

End process_all_indexes.

End Batches.

(** ** [src/parsers/base_parser.py]: the text helper of the parsers *)
Module BaseParser.

(** [str.isprintable] of one character (code points below 256). *)
Definition isprintable (c : ascii) : bool :=
  let n := nat_of_ascii c in
  ((32 <=? n) && (n <=? 126) || (161 <=? n) && negb (n =? 173))%nat.

(** [re.sub(r'\s+', ' ', text)]: every maximal run of white space becomes one
    space; [in_run] tells that the character before was white space. *)
Fixpoint sub_spaces (in_run : bool) (text : string) : string :=
  match text with
  | EmptyString => EmptyString
  | String c rest =>
      if Text.isspace c
      then if in_run then sub_spaces true rest else String " " (sub_spaces true rest)
      else String c (sub_spaces false rest)
  end.

(** [''.join(char for char in text if char.isprintable())] *)
Fixpoint printable_chars (text : string) : string :=
  match text with
  | EmptyString => EmptyString
  | String c rest =>
      if isprintable c then String c (printable_chars rest) else printable_chars rest
  end.

(** [_clean_text] *)
Definition _clean_text (text : string) : string :=
  printable_chars (Text.strip (sub_spaces false text)).

End BaseParser.

(** * Statements of the specification *)

(** ** Definitions used to state the properties of the parser *)
Module ParserSpec.

(** The parser once [parse_file] has set its path. *)
Definition parser_at (file_path : string) (errs : list string) : IndexParser.Parser :=
  {| IndexParser.source_path := Some (PurePath.of_string file_path);
     IndexParser.errors := errs |}.

(** The category the parser derives from the path of an index file. *)
Definition classify (file_path : string) : string :=
  IndexParser._determine_category (parser_at file_path []).

(** The rule table as the specification words it: a path segment that is
    literally the marker gives the category. *)
Definition rule_table : list (string * string) :=
  [ ("exploits", "exploit");
    ("shellcodes", "shellcode");
    ("util", "tool");
    ("Doc", "doc");
    ("systemerror", "systemerror") ].

Definition is_marker (part : string) : Prop := ∃ cat, (part, cat) ∈ rule_table.

(** The category of a path as the specification words it: the segments of
    the path are scanned in order and, for each, the rules in table order;
    the first rule whose marker is the segment gives the category, and a
    path without such a segment has the category [unknown]. *)
Definition rule_for (segment : string) : option string :=
  snd <$> List.find (fun rule => bool_decide (rule.1 = segment)) rule_table.

Definition path_category (file_path : string) : string :=
  default "unknown"
          (head (omap rule_for (PurePath.parts (PurePath.of_string file_path)))).

(** The lines of a block, as the parser reads them. *)
Definition block_lines (entry_text : string) : list string :=
  Text.strip <$> Text.split Text.newline (Text.strip entry_text).

(** A block with no [File Name:] line. *)
Definition lacks_file_name (entry_text : string) : Prop :=
  Forall (fun line => Text.startswith "File Name:" line = false) (block_lines entry_text).

(** The index text of the first scenario. *)
Definition scenario_text : string :=
  "File Name: a.bin" +:+ Text.newline +:+
  "Description:" +:+ Text.newline +:+
  "line one" +:+ Text.newline +:+
  "tags | x, y" +:+ Text.newline +:+
  "///".

(** Two blocks: the first ends inside its description, the second has no
    [Description:] line and starts with a line no rule recognises. *)
Definition carry_over_text : string :=
  "File Name: a" +:+ Text.newline +:+
  "Description:" +:+ Text.newline +:+
  "first" +:+ Text.newline +:+
  "///" +:+
  "stray line" +:+ Text.newline +:+
  "File Name: b" +:+ Text.newline.

(** A piece of the split text that the block loop does not skip. *)
Definition nonblank (b : string) : Prop := Text.strip b <> "".

#[global] Instance nonblank_dec b : Decision (nonblank b).
Proof. unfold nonblank. apply _. Defined.

End ParserSpec.

(** ** Definitions used to state the properties of the store *)
Module StoreSpec.
Import Store.

(** [UNIQUE(full_path)] on the files table. *)
Definition unique_paths (s : t) : Prop := NoDup (f_full_path <$> files s).

(** The (file_id, source_index) pair of an annotation row, when neither is
    NULL. *)
Definition annotation_key (r : AnnotationRow) : option (Z * string) :=
  match a_file_id r, a_source_index r with
  | Some f, Some src => Some (f, src)
  | _, _ => None
  end.

(** At most one annotation row per (file_id, source_index) pair. *)
Definition one_annotation_per_pair (s : t) : Prop :=
  NoDup (omap annotation_key (annotations s)).

(** The rows of the files table with a given path, and of the content table
    with a given file id. *)
Definition rows_for_path (p : string) (s : t) : list FileRow :=
  filter (fun r => f_full_path r = p) (files s).

Definition rows_for_file (f : Z) (s : t) : list ContentRow :=
  filter (fun r => c_file_id r = Some f) (content s).

(** The row [INSERT OR IGNORE] writes for [d] under rowid [i]. *)
Definition file_row (i : Z) (fn p : string) (d : FileData) : FileRow :=
  {| f_id := i; f_filename := fn; f_full_path := p; f_file_type := fd_file_type d;
     f_size := fd_size d; f_modified_date := Sql.numeric_affinity <$> fd_modified_date d;
     f_category := fd_category d; f_processed := fd_processed d |}.

(** A metadata that [json.dumps] writes as a bare number. *)
Definition is_number (m : Json.value) : bool :=
  match m with
  | Json.Int _ => true
  | _ => false
  end.

(** A metadata with a list, a string with a line break, a null, a number
    and a truth value, and the text [json.dumps] makes of it:
    [{"tags": ["x", "y"], "note": "a\nb", "author": null, "n": 5, "ok": true}]. *)
Definition example_metadata : Json.value :=
  Json.Obj [ ("tags", Json.Arr [Json.Str "x"; Json.Str "y"]);
             ("note", Json.Str ("a" +:+ Text.newline +:+ "b"));
             ("author", Json.Null);
             ("n", Json.Int 5);
             ("ok", Json.Bool true) ].

Definition quoted (s : string) : string := Json.quote +:+ s +:+ Json.quote.

Definition example_text : string :=
  "{" +:+ quoted "tags" +:+ ": [" +:+ quoted "x" +:+ ", " +:+ quoted "y" +:+ "], " +:+
  quoted "note" +:+ ": " +:+ quoted ("a" +:+ Json.backslash +:+ "nb") +:+ ", " +:+
  quoted "author" +:+ ": null, " +:+
  quoted "n" +:+ ": 5, " +:+
  quoted "ok" +:+ ": true}".

(** The stores the program can build: the empty one, and any store a
    writing call leaves. *)
Inductive reachable : t -> Prop :=
| reachable_empty : reachable empty
| reachable_run s o : reachable s -> reachable (run s o).

End StoreSpec.

(** ** Definitions used to state the properties of the writer *)
Module PipelineSpec.
Import Store Pipeline.

(** The path and the entry of one turn of the writer's loops. *)
Definition flat (entries_batch : list (string * list IndexParser.Entry))
  : list (string * IndexParser.Entry) :=
  entries_batch ≫= fun item => pair item.1 <$> item.2.

Definition save_item (st : IndexProcessor * nat) (pe : string * IndexParser.Entry)
  : IndexProcessor * nat :=
  save_entry pe.1 st pe.2.

(** The store holds the file row of the entry and an annotation row for it
    and its index file. *)
Definition covered (s : Store.t) (pe : string * IndexParser.Entry) : Prop :=
  exists r a,
    select_file s (fd_full_path (file_data pe.1 pe.2)) = Some r /\
    select_annotation s (Some (f_id r)) (Some (IndexParser.source_index pe.2)) = Some a.

End PipelineSpec.

(** ** Entries used to state the properties of the statistics *)
Module StatsSpec.
Import Stats.

(** An entry as the parser returns it for a file named [README], and a dict
    with neither metadata nor file name. *)
Definition readme : EntryDict :=
  of_entry {| IndexParser.filename := "README";
              IndexParser.description := "No description available";
              IndexParser.source_index := "data/util/index_.txt";
              IndexParser.metadata :=
                {| IndexParser.tags := []; IndexParser.systems := [];
                   IndexParser.hashes := []; IndexParser.author := None;
                   IndexParser.category := "tool" |} |}.

Definition bare : EntryDict := {| e_filename := None; e_metadata := None |}.

End StatsSpec.

(** ** Definitions used to state the properties of the coverage analyzer *)
Module CoverageSpec.
Import Coverage.

(** The distinct paths of the manifest: its lines, stripped, without the
    blank ones. *)
Definition manifest_paths (manifest : list string) : gset string :=
  list_to_set (filter IndexParser.nonempty (Text.strip <$> manifest)).

(** The file name a block names: the value of its first [File Name:] line
    whose value is not empty. *)
Fixpoint first_name (lines : list string) : option string :=
  match lines with
  | [] => None
  | line :: rest =>
      if Text.startswith "File Name:" (Text.strip line) then
        match Text.split1 ":" line !! 1 with
        | Some after =>
            if decide (Text.strip after = "") then first_name rest
            else Some (Text.strip after)
        | None => first_name rest
        end
      else first_name rest
  end.

Definition block_name (entry : string) : option string :=
  if decide (Text.strip entry = "") then None
  else first_name (Text.split Text.newline entry).

(** The distinct file names the index files name: one name at most for each
    block, that of [block_name]. *)
Definition named_files (index_files : list (string * string)) : gset string :=
  list_to_set (index_files ≫= fun f => omap block_name (Text.split "///" f.2)).

(** The specification's reading of "indexed": the paths of the manifest that
    the index files name. *)
Definition covered_paths (manifest : list string) (index_files : list (string * string))
  : gset string :=
  manifest_paths manifest ∩ named_files index_files.

End CoverageSpec.

(** ** Definitions used to state further properties of the store *)
Module SchemaSpec.
Import Store.

(** The constraints of the three [CREATE TABLE] statements: the primary
    keys, [UNIQUE(full_path)], and [UNIQUE(file_id)], which NULLs escape;
    rowids start at 1. *)
Definition schema (s : t) : Prop :=
  NoDup (f_id <$> files s) /\
  NoDup (f_full_path <$> files s) /\
  NoDup (a_id <$> annotations s) /\
  NoDup (c_id <$> content s) /\
  NoDup (omap c_file_id (content s)) /\
  Forall (fun i => (1 <= i)%Z)
         ((f_id <$> files s) ++ (a_id <$> annotations s) ++ (c_id <$> content s)).

(** The store after a sequence of writing calls. *)
Definition run_all (s : t) (ops : list op) : t := foldl run s ops.

End SchemaSpec.

(** ** Definitions used to state further properties of the writer *)
Module WriterSpec.
Import Store Pipeline PipelineSpec.

(** Some annotation row, some content row refers to the file id. *)
Definition has_annotation (s : Store.t) (i : Z) : Prop :=
  Exists (fun a => a_file_id a = Some i) (annotations s).

Definition has_content (s : Store.t) (i : Z) : Prop :=
  Exists (fun c => c_file_id c = Some i) (content s).

(** Every file row has an annotation row and a content row. *)
Definition complete (s : Store.t) : Prop :=
  Forall (fun f => has_annotation s (f_id f) /\ has_content s (f_id f)) (files s).

(** The store holds the entry: its file row under its path, an annotation
    row for that file and the entry's index file, and a content row for
    that file. *)
Definition stored (s : Store.t) (pe : string * IndexParser.Entry) : Prop :=
  exists r a,
    get_file_by_path s (PurePath.to_string
        (PurePath.joinpath (PurePath.parent (PurePath.of_string pe.1))
                           (IndexParser.filename pe.2))) = Some r /\
    a ∈ annotations s /\
    a_file_id a = Some (f_id r) /\
    a_source_index a = Some (IndexParser.source_index pe.2) /\
    has_content s (f_id r).

End WriterSpec.

(** ** Definitions used to state further properties of the statistics *)
Module TallySpec.
Import Stats.

(** The sum of a counter over its buckets. *)
Definition total (c : Counter) : nat := map_fold (fun _ v acc => v + acc) 0 c.

(** How often [key] occurs in a list. *)
Definition occurrences (key : string) (l : list string) : nat :=
  length (filter (fun x => x = key) l).

(** The three counters that every entry of the parser feeds add up to the
    number of entries. *)
Definition consistent (self : StatsAnalyzer) : Prop :=
  total (categories self) = total_entries self /\
  total (file_types self) = total_entries self /\
  total (authors self) = total_entries self.

End TallySpec.

(** ** Definitions used to state further properties of the parser *)
Module EntrySpec.
Import IndexParser.

(** The metadata the parser builds: no empty tag or system, and a hash
    mapping whose keys are the two algorithm names, each at most once. *)
Definition well_formed (m : Metadata) : Prop :=
  Forall nonempty (tags m) /\
  Forall nonempty (systems m) /\
  NoDup (hashes m).*1 /\
  Forall (fun k => k = "MD5" \/ k = "SHA-256") (hashes m).*1.

(** What holds of the draft of a block at every line. *)
Definition sound (src : string) (cur : Draft) : Prop :=
  (forall f, d_filename cur = Some f -> f <> "" /\ f <> ":") /\
  d_source_index cur = src /\
  well_formed (d_metadata cur).

(** What holds of every entry the parser returns. *)
Definition sound_entry (src : string) (e : Entry) : Prop :=
  filename e <> "" /\ filename e <> ":" /\
  description e <> "" /\
  source_index e = src /\
  well_formed (metadata e).

End EntrySpec.

(** ** Definitions used to state the properties of the dataset builder *)
Module BuilderSpec.
Import Store Builder.

(** The file of a row is on disk and [stat] succeeds. *)
Definition on_disk (disk : string -> probe) (r : FileRow) : Prop :=
  exists st_size st_mtime, disk (f_full_path r) = Present st_size st_mtime.

(** The number of rows a fetch can still return. *)
Definition pending (s : t) : nat := length (filter unprocessed (files s)).

(** What [process_files] does to a row: its identity stays, and a row that is
    still unprocessed is as it was. *)
Definition row_step (r r' : FileRow) : Prop :=
  f_id r' = f_id r /\ f_full_path r' = f_full_path r /\ f_filename r' = f_filename r /\
  (unprocessed r' -> r' = r).

Definition store_step (s s' : t) : Prop :=
  Forall2 row_step (files s) (files s') /\
  annotations s' = annotations s /\ content s' = content s.

(** The path under which [process_index_files] stores the file of an
    entry. *)
Definition stored_path (self : SecurityDatasetBuilder) (annotation : IndexParser.Entry)
  : string :=
  PurePath.to_string
    (PurePath.joinpath (PurePath.parent (files_list_path self))
                       (IndexParser.filename annotation)).

(** A table of two rows, the first still to be processed, and two disks:
    one that has every file and one that has none. *)
Definition two_files : t :=
  {| files :=
       [ {| f_id := 1; f_filename := "a.bin"; f_full_path := "x/a.bin";
            f_file_type := Some ".bin"; f_size := Some 0%Z; f_modified_date := None;
            f_category := None; f_processed := Some false |};
         {| f_id := 2; f_filename := "b.txt"; f_full_path := "x/b.txt";
            f_file_type := Some ".txt"; f_size := Some 7%Z;
            f_modified_date := Some (Sql.Real 1700000000.5);
            f_category := None; f_processed := Some true |} ];
     annotations := []; content := [] |}.

Definition full_disk : string -> probe := fun _ => Present 4 1700000001.25.

Definition empty_disk : string -> probe := fun _ => Absent.

End BuilderSpec.

(** ** Definitions used to state the properties of [_clean_text] *)
Module CleanSpec.
Import BaseParser.

(** Every character is printable. *)
Fixpoint printable (text : string) : bool :=
  match text with
  | EmptyString => true
  | String c rest => isprintable c && printable rest
  end.

(** Every character is printable or white space: text without control
    characters other than white space. *)
Fixpoint plain (text : string) : bool :=
  match text with
  | EmptyString => true
  | String c rest => (isprintable c || Text.isspace c) && plain rest
  end.

(** White space occurs only as single spaces; [after_space] tells that the
    character before was white space. *)
Fixpoint spaced (after_space : bool) (text : string) : bool :=
  match text with
  | EmptyString => true
  | String c rest =>
      if Text.isspace c
      then negb after_space && Ascii.eqb c " " && spaced true rest
      else spaced false rest
  end.

(** The text does not start with white space. *)
Definition clean_head (text : string) : bool :=
  match text with
  | EmptyString => true
  | String c _ => negb (Text.isspace c)
  end.

(** A text with a control character between two spaces. *)
Definition control_between_spaces : string :=
  String "a" (String " " (String "000" (String " " (String "b" EmptyString)))).

End CleanSpec.

(** ** The parser *)
Module ParserProps.
Import IndexParser ParserSpec.

Lemma startswith_app p s : Text.startswith p s = true -> exists r, s = p +:+ r.
Proof.
  unfold Text.startswith. revert s.
  induction p as [|a p IH]; intros s H.
  - by exists s.
  - destruct s as [|b s]; simpl in H; [done|].
    destruct (Ascii.ascii_dec a b) as [->|]; [|done].
    destruct (IH _ H) as [r ->]. by exists r.
Qed.

Lemma removeprefix_startswith p s :
  Text.startswith p s = false -> Text.removeprefix p s = None.
Proof.
  unfold Text.startswith. revert s.
  induction p as [|a p IH]; intros s H.
  - by destruct s.
  - destruct s as [|b s]; simpl in *; [done|].
    destruct (Ascii.ascii_dec a b) as [->|Hne].
    + rewrite Ascii.eqb_refl. by apply IH.
    + by destruct (Ascii.eqb_spec a b).
Qed.

Lemma split_go_cons sep k cur s : exists x l, Text.split_go sep k cur s = x :: l.
Proof.
  revert k cur. induction s as [|c s IH]; intros k cur; cbn -[String.prefix].
  - eauto.
  - destruct k; [|apply IH].
    destruct (String.prefix sep (String c s)); [eauto|apply IH].
Qed.

Lemma app_cons c s r : String c s +:+ r = String c (s +:+ r).
Proof. reflexivity. Qed.

Lemma app_nil r : "" +:+ r = r.
Proof. reflexivity. Qed.

Lemma prefix_empty r : String.prefix "" r = true.
Proof. by destruct r. Qed.

(** The second piece of [line.split('|')] exists once the line starts with
    [tags |] or [systems |]. *)
Lemma tags_index line :
  Text.startswith "tags |" line = true ->
  exists t, py_index (Text.split "|" line) 1 = Normal t.
Proof.
  intros [r ->]%startswith_app. unfold Text.split.
  rewrite !app_cons, app_nil. cbn. rewrite prefix_empty.
  destruct (split_go_cons "|" 0 "" r) as (x & l & ->). by exists x.
Qed.

Lemma systems_index line :
  Text.startswith "systems |" line = true ->
  exists t, py_index (Text.split "|" line) 1 = Normal t.
Proof.
  intros [r ->]%startswith_app. unfold Text.split.
  rewrite !app_cons, app_nil. cbn. rewrite prefix_empty.
  destruct (split_go_cons "|" 0 "" r) as (x & l & ->). by exists x.
Qed.

(** A line never raises, keeps the category and the source, and sets the
    file name only when it is a [File Name:] line. *)
Lemma process_line_normal cur ind raw :
  exists cur' ind',
    process_line (cur, ind) raw = Normal (cur', ind') /\
    category (d_metadata cur') = category (d_metadata cur) /\
    d_source_index cur' = d_source_index cur /\
    (Text.startswith "File Name:" (Text.strip raw) = false -> d_filename cur' = d_filename cur).
Proof.
  unfold process_line.
  case_decide; [by eauto 10|].
  destruct (Text.match_file_name (Text.strip raw)) as [g|] eqn:Hfn.
  { case_decide; eexists _, _; (split; [done|]); repeat split; try done.
    intros Hs. apply removeprefix_startswith in Hs.
    unfold Text.match_file_name in Hfn. by rewrite Hs in Hfn. }
  case_decide; [by eauto 10|].
  destruct (Text.startswith "tags |" (Text.strip raw)) eqn:Htags.
  { destruct (tags_index _ Htags) as [t ->]. by eauto 10. }
  destruct (Text.startswith "systems |" (Text.strip raw)) eqn:Hsys.
  { destruct (systems_index _ Hsys) as [t ->]. by eauto 10. }
  destruct (Text.match_hash (Text.strip raw)) as [[ht hv]|]; [by eauto 10|].
  destruct (Text.match_author (Text.strip raw)); [by eauto 10|].
  destruct ind; by eauto 10.
Qed.

Lemma process_lines_normal cur ind lines :
  exists cur' ind',
    process_lines (cur, ind) lines = Normal (cur', ind') /\
    category (d_metadata cur') = category (d_metadata cur) /\
    d_source_index cur' = d_source_index cur /\
    (Forall (fun raw => Text.startswith "File Name:" (Text.strip raw) = false) lines ->
     d_filename cur' = d_filename cur).
Proof.
  revert cur ind. induction lines as [|raw lines IH]; intros cur ind.
  - simpl. by eauto 10.
  - cbn [process_lines].
    destruct (process_line_normal cur ind raw) as (cur1 & ind1 & -> & Hc & Hs & Hf).
    cbn [mbind outcome_bind].
    destruct (IH cur1 ind1) as (cur2 & ind2 & -> & Hc2 & Hs2 & Hf2).
    eexists _, _. split; [done|]. repeat split; [congruence|congruence|].
    intros [H1 H2]%Forall_cons. rewrite Hf2, Hf; done.
Qed.

(** One turn of the block loop never raises.  It leaves the loop state
    alone (a blank block), or appends one entry carrying the file's
    category, or appends one error; a block with no [File Name:] line takes
    the last way. *)
Lemma process_block_normal self file_path st b :
  exists st',
    process_block self file_path st b = (Normal st', loop_errors st') /\
    ((Text.strip b = "" /\ st' = st) \/
     (Text.strip b <> "" /\
      ((exists e ind,
          st' = {| in_description := ind; results := results st ++ [e];
                   loop_errors := loop_errors st |} /\
          category (metadata e) = _determine_category self /\
          ~ lacks_file_name b) \/
       (exists ind,
          st' = {| in_description := ind; results := results st;
                   loop_errors := loop_errors st ++ [skipped_message file_path] |})))).
Proof.
  unfold process_block. case_decide as Hb; [by eauto 10|].
  destruct (process_lines_normal (new_entry self) (in_description st)
              (Text.split Text.newline (Text.strip b)))
    as (cur & ind & -> & Hc & _ & Hf).
  unfold finish. destruct (d_filename cur) as [f|] eqn:Hfile.
  - case_decide.
    + eexists. split; [f_equal; reflexivity|]. right. split; [done|]. right. by eexists.
    + eexists. split; [f_equal; reflexivity|]. right. split; [done|]. left.
      eexists _, _. split; [done|]. split; [etrans; [exact Hc|reflexivity]|].
      intros Hl. unfold lacks_file_name, block_lines in Hl.
      rewrite Forall_fmap in Hl. specialize (Hf Hl). by rewrite Hf in Hfile.
  - eexists. split; [f_equal; reflexivity|]. right. split; [done|]. right. by eexists.
Qed.

(** The whole loop never raises: every non-blank block gives one entry or
    one error. *)
Lemma process_blocks_normal self file_path st blocks :
  exists st' new n,
    process_blocks self file_path st blocks = (Normal st', loop_errors st') /\
    results st' = results st ++ new /\
    loop_errors st' = loop_errors st ++ replicate n (skipped_message file_path) /\
    Forall (fun e => category (metadata e) = _determine_category self) new /\
    length new + n = length (filter nonblank blocks).
Proof.
  revert st. induction blocks as [|b blocks IH]; intros st.
  - exists st, [], 0. simpl. by rewrite !app_nil_r.
  - cbn [process_blocks].
    destruct (process_block_normal self file_path st b) as (st1 & -> & Hcase).
    destruct (IH st1) as (st2 & new & n & -> & Hr & He & Hcat & Hlen).
    destruct Hcase as [[Hb ->]|[Hb [(e & ind & -> & Hce & _)|(ind & ->)]]].
    + exists st2, new, n. rewrite filter_cons_False by (unfold nonblank; tauto). done.
    + exists st2, (e :: new), n. simpl in *.
      rewrite filter_cons_True by done. rewrite Hr, <- app_assoc. simpl.
      repeat split; [done|by constructor|lia].
    + exists st2, new, (S n). simpl in *.
      rewrite filter_cons_True by done. rewrite He, <- app_assoc. simpl.
      repeat split; [done|done|lia].
Qed.

Lemma determine_category_parser_at file_path errs :
  _determine_category (parser_at file_path errs) = classify file_path.
Proof. reflexivity. Qed.

Lemma scan_rules_marker part cat :
  (part, cat) ∈ rule_table -> scan_rules part categories = Some cat.
Proof.
  unfold rule_table. rewrite !elem_of_cons, elem_of_nil.
  intros H. repeat destruct H as [H|H]; try done; by inversion H.
Qed.

Lemma scan_rules_other part :
  ~ is_marker part -> scan_rules part categories = None.
Proof.
  intros Hn. unfold categories. cbn [scan_rules].
  repeat (case_bool_decide as Hin;
          [ exfalso; apply Hn; apply list_elem_of_singleton in Hin as ->;
            eexists; unfold rule_table; rewrite !elem_of_cons; eauto 10 | clear Hin ]).
  done.
Qed.

Lemma scan_parts_first pre part post cat :
  Forall (fun x => ~ is_marker x) pre ->
  (part, cat) ∈ rule_table ->
  scan_parts (pre ++ part :: post) = Some cat.
Proof.
  intros Hpre Hm. induction Hpre as [|x pre Hx _ IH]; cbn [scan_parts app].
  - by rewrite (scan_rules_marker _ _ Hm).
  - by rewrite (scan_rules_other _ Hx).
Qed.

Lemma scan_parts_none l :
  Forall (fun x => ~ is_marker x) l -> scan_parts l = None.
Proof.
  induction 1 as [|x l Hx _ IH]; cbn [scan_parts]; [done|].
  by rewrite (scan_rules_other _ Hx).
Qed.

(** The loops of the parser against the rule table of the specification. *)
Lemma scan_rules_rule_for part : scan_rules part categories = rule_for part.
Proof.
  unfold rule_for, rule_table, categories. cbn [scan_rules List.find fst].
  destruct (decide (part = "exploits")) as [->|H1]; [by vm_compute|].
  destruct (decide (part = "shellcodes")) as [->|H2]; [by vm_compute|].
  destruct (decide (part = "util")) as [->|H3]; [by vm_compute|].
  destruct (decide (part = "Doc")) as [->|H4]; [by vm_compute|].
  destruct (decide (part = "systemerror")) as [->|H5]; [by vm_compute|].
  rewrite !bool_decide_eq_false_2; [done|..];
    rewrite ?list_elem_of_singleton; congruence.
Qed.

Lemma scan_parts_rule_for path_parts :
  scan_parts path_parts = head (omap rule_for path_parts).
Proof.
  induction path_parts as [|part rest IH]; [done|]. cbn [scan_parts omap list_omap].
  rewrite scan_rules_rule_for. by destruct (rule_for part).
Qed.

(** C4.  The scenario text, parsed by a fresh parser as the index file at
    any path, gives exactly one entry: file name [a.bin], description
    [line one], tags [x] and [y], no hashes, and the category that the rule
    table of the specification gives the path; no error is recorded.  Under
    [data/exploits] that category is [exploit], under [data/misc] it is
    [unknown]. *)
Theorem scenario_parses_to_one_entry (file_path : string) :
  parse_file new file_path (ReadOk scenario_text) =
  ([ {| filename := "a.bin";
        description := "line one";
        source_index := PurePath.to_string (PurePath.of_string file_path);
        metadata := {| tags := ["x"; "y"]; systems := []; hashes := []; author := None;
                       category := path_category file_path |} |} ],
   parser_at file_path []) /\
  (category <$> (metadata <$> (parse_file new "data/exploits/index_.txt"
                                          (ReadOk scenario_text)).1)) = ["exploit"] /\
  (category <$> (metadata <$> (parse_file new "data/misc/index_.txt"
                                          (ReadOk scenario_text)).1)) = ["unknown"].
Proof.
  split; [|split; reflexivity].
  assert (classify file_path = path_category file_path) as <-; [|reflexivity].
  unfold classify, path_category, _determine_category. cbn [source_path parser_at].
  by rewrite scan_parts_rule_for.
Qed.

(** C10.  The description flag is not reset between blocks.  In the two-block
    text [carry_over_text] the first block ends inside its description; the
    second block has no [Description:] line, yet its leading line, which no
    rule recognises, becomes the description of the second entry.  Parsed on
    its own, the same second block gets the placeholder. *)
Theorem description_mode_carries_over (file_path : string) :
  exists b1 b2 e1 e2 p,
    Text.split "///" carry_over_text = [b1; b2] /\
    ("Description:" ∉ block_lines b2) /\
    parse_file new file_path (ReadOk carry_over_text) = ([e1; e2], p) /\
    description e1 = "first" /\
    filename e2 = "b" /\
    description e2 = "stray line" /\
    (description <$> (parse_file new file_path (ReadOk b2)).1) = ["No description available"].
Proof.
  eexists _, _, _, _, _.
  split; [reflexivity|].
  split; [intros Hin%list_elem_of_In; vm_compute in Hin; intuition discriminate|].
  split; [reflexivity|].
  repeat split; reflexivity.
Qed.

Lemma parse_file_readable self file_path content :
  parse_file self file_path (ReadOk content) =
  match process_blocks (parser_at file_path (errors self)) file_path
          {| in_description := false; results := []; loop_errors := errors self |}
          (Text.split "///" content) with
  | (Normal st, errs) => (results st, parser_at file_path errs)
  | (Raised exc, errs) =>
      ([], parser_at file_path (errs ++ [read_error_message file_path exc]))
  end.
Proof. reflexivity. Qed.

(** C5.  [parse_file] never raises.  When the file cannot be read it
    returns no entry and records a single error.  When it can, the block
    loop runs to its end without an exception: each non-blank block gives one
    entry or one error naming the file, and nothing else is recorded.  A
    non-blank block with no [File Name:] line gives no entry and exactly one
    such error, as does the one-block text [tags | x]; the error ends with
    the path of the file. *)
Theorem parse_file_skips_and_never_raises (self : Parser) (file_path : string) :
  (forall exc,
     parse_file self file_path (ReadFailed exc) =
     ([], parser_at file_path (errors self ++ [read_error_message file_path exc]))) /\
  (forall content,
     exists st n,
       process_blocks (parser_at file_path (errors self)) file_path
         {| in_description := false; results := []; loop_errors := errors self |}
         (Text.split "///" content) = (Normal st, loop_errors st) /\
       parse_file self file_path (ReadOk content) =
         (results st, parser_at file_path (loop_errors st)) /\
       loop_errors st = errors self ++ replicate n (skipped_message file_path) /\
       length (results st) + n = length (filter nonblank (Text.split "///" content))) /\
  (forall st block,
     Text.strip block <> "" ->
     lacks_file_name block ->
     exists ind,
       process_block (parser_at file_path (errors self)) file_path st block =
       (Normal {| in_description := ind; results := results st;
                  loop_errors := loop_errors st ++ [skipped_message file_path] |},
        loop_errors st ++ [skipped_message file_path])) /\
  parse_file self file_path (ReadOk "tags | x") =
    ([], parser_at file_path (errors self ++ [skipped_message file_path])) /\
  (exists text, skipped_message file_path = text +:+ file_path).
Proof.
  split; [reflexivity|]. split; [|split; [|split; [reflexivity|by eexists]]].
  - intros content.
    destruct (process_blocks_normal (parser_at file_path (errors self)) file_path
                {| in_description := false; results := []; loop_errors := errors self |}
                (Text.split "///" content))
      as (st & new & n & Hrun & Hres & Herr & _ & Hlen).
    exists st, n. split; [done|]. split; [|split; [done|]].
    + by rewrite parse_file_readable, Hrun.
    + simpl in Hres. by rewrite Hres.
  - intros st block Hb Hl.
    destruct (process_block_normal (parser_at file_path (errors self)) file_path st block)
      as (st' & Hrun & [[Hblank _]|[_ [(e & ind & _ & _ & Hn)|(ind & ->)]]]); [done|done|].
    exists ind. exact Hrun.
Qed.

(** At the index file [data/index_.txt], the block [tags | x]. *)
Lemma parse_file_skips_witness :
  exists ind,
    process_block (parser_at "data/index_.txt" []) "data/index_.txt"
      {| in_description := false; results := []; loop_errors := [] |} "tags | x" =
    (Normal {| in_description := ind; results := [];
               loop_errors := [skipped_message "data/index_.txt"] |},
     [skipped_message "data/index_.txt"]).
Proof.
  apply (proj1 (proj2 (proj2 (parse_file_skips_and_never_raises new "data/index_.txt")))
           {| in_description := false; results := []; loop_errors := [] |} "tags | x").
  - vm_compute. discriminate.
  - unfold lacks_file_name. vm_compute. repeat constructor.
Defined.

(** C6.  The category of an index file is found by scanning the parts of its
    path in order for one that is literally a marker of the rule table: the
    first such part decides, by its rule; with no such part the category is
    [unknown].  Every entry parsed from the file carries that category,
    whatever the file contains. *)
Theorem category_first_match (file_path : string) :
  (forall pre part post cat,
     PurePath.parts (PurePath.of_string file_path) = pre ++ part :: post ->
     Forall (fun x => ~ is_marker x) pre ->
     (part, cat) ∈ rule_table ->
     classify file_path = cat) /\
  (Forall (fun x => ~ is_marker x) (PurePath.parts (PurePath.of_string file_path)) ->
   classify file_path = "unknown") /\
  (forall self content,
     Forall (fun e => category (metadata e) = classify file_path)
            (parse_file self file_path (ReadOk content)).1).
Proof.
  split; [|split].
  - intros pre part post cat Hparts Hpre Hm.
    unfold classify, _determine_category. simpl. rewrite Hparts.
    by rewrite (scan_parts_first _ _ _ _ Hpre Hm).
  - intros Hnone. unfold classify, _determine_category. simpl.
    by rewrite (scan_parts_none _ Hnone).
  - intros self content.
    destruct (process_blocks_normal (parser_at file_path (errors self)) file_path
                {| in_description := false; results := []; loop_errors := errors self |}
                (Text.split "///" content))
      as (st & new & n & Hrun & Hres & _ & Hcat & _).
    rewrite parse_file_readable, Hrun. simpl in *. by rewrite Hres.
Qed.

(** The path [/data/shellcodes/linux/index_.txt]: the root and [data] are no
    markers, [shellcodes] is. *)
Lemma category_first_match_witness :
  classify "/data/shellcodes/linux/index_.txt" = "shellcode".
Proof.
  apply (proj1 (category_first_match "/data/shellcodes/linux/index_.txt")
           ["/"; "data"] "shellcodes" ["linux"; "index_.txt"] "shellcode").
  - reflexivity.
  - repeat constructor; intros [c Hc]; unfold rule_table in Hc;
      rewrite !elem_of_cons, elem_of_nil in Hc; intuition discriminate.
  - unfold rule_table. rewrite !elem_of_cons. right. left. reflexivity.
Defined.

End ParserProps.

(** ** The store *)
Module StoreProps.
Import Store StoreSpec.

Section find.
Context {A : Type} (P : A -> Prop) `{!forall x, Decision (P x)}.

Lemma find_app_some (l l' : list A) x :
  List.find (fun r => bool_decide (P r)) l = Some x ->
  List.find (fun r => bool_decide (P r)) (l ++ l') = Some x.
Proof.
  induction l as [|y l IH]; simpl; [done|]. by case_bool_decide.
Qed.

Lemma find_app_none (l l' : list A) :
  List.find (fun r => bool_decide (P r)) l = None ->
  List.find (fun r => bool_decide (P r)) (l ++ l') =
  List.find (fun r => bool_decide (P r)) l'.
Proof.
  induction l as [|y l IH]; simpl; [done|]. by case_bool_decide.
Qed.

Lemma find_some_elem (l : list A) x :
  List.find (fun r => bool_decide (P r)) l = Some x -> x ∈ l /\ P x.
Proof.
  induction l as [|y l IH]; simpl; [done|]. case_bool_decide.
  - intros [= ->]. split; [left|done].
  - intros [Hin HP]%IH. split; [by right|done].
Qed.

Lemma find_none_all (l : list A) :
  List.find (fun r => bool_decide (P r)) l = None -> Forall (fun x => ~ P x) l.
Proof.
  induction l as [|y l IH]; simpl; [constructor|]. case_bool_decide; [done|].
  intros H'. constructor; auto.
Qed.

Lemma find_is_some (l : list A) x :
  x ∈ l -> P x -> is_Some (List.find (fun r => bool_decide (P r)) l).
Proof.
  induction 1 as [y l|y z l _ IH]; simpl; intros HP; case_bool_decide; eauto; done.
Qed.

Lemma filter_none (l : list A) : Forall (fun x => ~ P x) l -> filter P l = [].
Proof.
  induction 1 as [|y l Hy _ IH]; [done|]. by rewrite filter_cons_False.
Qed.

End find.

(** Under a key without repetition, the rows with the key of a row of the
    list are that row alone. *)
Lemma filter_unique_key {A K : Type} `{EqDecision K} (key : A -> K) (l : list A) x :
  NoDup (key <$> l) -> x ∈ l -> filter (fun r => key r = key x) l = [x].
Proof.
  induction l as [|y l IH]; intros Hnd Hin; [by apply elem_of_nil in Hin|].
  rewrite fmap_cons in Hnd. apply NoDup_cons in Hnd as [Hy Hnd].
  apply elem_of_cons in Hin as [->|Hin].
  - rewrite filter_cons_True by done. f_equal.
    apply filter_none, Forall_forall. intros z Hz Heq.
    apply Hy. rewrite <- Heq. by apply list_elem_of_fmap_2.
  - rewrite filter_cons_False; [by apply IH|].
    intros Heq. apply Hy. rewrite Heq. by apply list_elem_of_fmap_2.
Qed.

Lemma select_file_elem s p r :
  select_file s (Some p) = Some r -> r ∈ files s /\ f_full_path r = p.
Proof. apply (find_some_elem (fun r => f_full_path r = p)). Qed.

Lemma insert_or_ignore_fits s d :
  fits (fd_size d) -> insert_or_ignore_file s d = Normal (insert_file_row s d).
Proof. intros H. unfold insert_or_ignore_file. by rewrite decide_True. Qed.

Lemma insert_or_ignore_overflow s d :
  ~ fits (fd_size d) -> add_file s d = Raised "OverflowError".
Proof. intros H. unfold add_file, insert_or_ignore_file. by rewrite decide_False. Qed.

(** C1, as stated, fails for a record whose size has more than 64 bits:
    [sqlite3] cannot bind it, so [add_file] raises [OverflowError] and
    returns no id.  On the empty store both calls raise and no row is
    written; after a first record with the same path has been stored, the
    second call raises instead of returning the id of the row. *)
Lemma oversized_file_counterexample :
  let d := {| fd_filename := Some "a.bin"; fd_full_path := Some "x/a.bin";
              fd_file_type := Some "bin"; fd_size := Some (2 ^ 63)%Z;
              fd_modified_date := None; fd_category := None;
              fd_processed := Some false |} in
  let d0 := {| fd_filename := Some "a.bin"; fd_full_path := Some "x/a.bin";
               fd_file_type := Some "bin"; fd_size := Some (2 ^ 63 - 1)%Z;
               fd_modified_date := None; fd_category := None;
               fd_processed := Some false |} in
  add_file empty d = Raised "OverflowError" /\
  rows_for_path "x/a.bin" (run (run empty (AddFile d)) (AddFile d)) = [] /\
  (exists s1, add_file empty d0 = Normal (1%Z, s1) /\
              add_file s1 d = Raised "OverflowError").
Proof.
  split; [reflexivity|]. split; [reflexivity|]. eexists. split; reflexivity.
Qed.

(** C1, amended.  On a store whose paths are unique, [add_file] for a record
    with a file name and the path [p], followed by [add_file] for any record
    with the same path, both with a size of 64 bits, returns the same id
    both times; the second call leaves the store as the first left it; the
    files table then holds exactly one row with path [p].  That row is the
    one that was there before the first call, untouched, or else the row of
    the first record. *)
Theorem add_file_twice_same_id (s : t) (d1 d2 : FileData) (fn p : string) :
  unique_paths s ->
  fd_filename d1 = Some fn ->
  fd_full_path d1 = Some p ->
  fd_full_path d2 = Some p ->
  fits (fd_size d1) ->
  fits (fd_size d2) ->
  exists i s1 r,
    add_file s d1 = Normal (i, s1) /\
    add_file s1 d2 = Normal (i, s1) /\
    rows_for_path p s1 = [r] /\
    f_id r = i /\
    unique_paths s1 /\
    match get_file_by_path s p with
    | Some r0 => s1 = s /\ r = r0
    | None => r = file_row i fn p d1
    end.
Proof.
  intros Hnd Hfn Hp1 Hp2 Hfit1 Hfit2. unfold get_file_by_path.
  destruct (select_file s (Some p)) as [r0|] eqn:Hsel.
  - destruct (select_file_elem _ _ _ Hsel) as [Hin Hpath].
    exists (f_id r0), s, r0.
    assert (forall d, fd_full_path d = Some p -> fits (fd_size d) ->
                      add_file s d = Normal (f_id r0, s)) as Hadd.
    { intros d Hd Hfit. unfold add_file. rewrite insert_or_ignore_fits by done.
      unfold insert_file_row. rewrite Hd.
      destruct (fd_filename d); by rewrite ?Hsel. }
    split; [by apply Hadd|]. split; [by apply Hadd|].
    split; [|done]. unfold rows_for_path. rewrite <- Hpath.
    by apply (filter_unique_key f_full_path).
  - set (i := next_rowid (f_id <$> files s)).
    set (r := file_row i fn p d1).
    set (s1 := {| files := files s ++ [r]; annotations := annotations s;
                  content := content s |}).
    assert (select_file s1 (Some p) = Some r) as Hsel1.
    { unfold select_file, s1. simpl. unfold select_file in Hsel.
      rewrite (find_app_none (fun r => f_full_path r = p)) by done.
      simpl. by rewrite bool_decide_eq_true_2. }
    assert (Forall (fun x => f_full_path x <> p) (files s)) as Hnone.
    { by apply (find_none_all (fun r => f_full_path r = p)). }
    exists i, s1, r.
    split.
    { unfold add_file. rewrite insert_or_ignore_fits by done.
      unfold insert_file_row. by rewrite Hfn, Hp1, Hsel. }
    split.
    { unfold add_file. rewrite insert_or_ignore_fits by done.
      unfold insert_file_row. rewrite Hp2.
      destruct (fd_filename d2); by rewrite ?Hsel1. }
    split.
    { unfold rows_for_path, s1. simpl. rewrite filter_app.
      rewrite (filter_none (fun r => f_full_path r = p)) by done.
      by rewrite filter_cons_True. }
    split; [done|]. split; [|done].
    unfold unique_paths, s1. simpl. rewrite fmap_app. apply NoDup_app.
    split; [done|]. split; [|apply NoDup_singleton].
    intros x Hx Hx'. apply list_elem_of_singleton in Hx'. simpl in Hx'. subst x.
    apply list_elem_of_fmap in Hx as (y & Hy & Hin).
    rewrite Forall_forall in Hnone. by apply (Hnone y).
Qed.

(** Outside the records of the theorem: with no file name the row is
    skipped for [NOT NULL], no row is found under the path, and the method
    raises on [fetchone()[0]]. *)
Example add_file_without_name_raises :
  add_file empty {| fd_filename := None; fd_full_path := Some "x/a.bin";
                    fd_file_type := None; fd_size := None; fd_modified_date := None;
                    fd_category := None; fd_processed := None |} = Raised "TypeError".
Proof. reflexivity. Qed.

(** On the empty store: [x/a.bin] written twice, the second time with
    another category. *)
Lemma add_file_twice_witness :
  let d1 := {| fd_filename := Some "a.bin"; fd_full_path := Some "x/a.bin";
               fd_file_type := Some "bin"; fd_size := Some 0%Z; fd_modified_date := None;
               fd_category := Some "exploit"; fd_processed := Some false |} in
  let d2 := {| fd_filename := Some "a.bin"; fd_full_path := Some "x/a.bin";
               fd_file_type := Some "bin"; fd_size := Some 7%Z; fd_modified_date := None;
               fd_category := Some "tool"; fd_processed := Some true |} in
  exists i s1 r,
    add_file empty d1 = Normal (i, s1) /\
    add_file s1 d2 = Normal (i, s1) /\
    rows_for_path "x/a.bin" s1 = [r] /\
    f_id r = i /\
    unique_paths s1 /\
    match get_file_by_path empty "x/a.bin" with
    | Some r0 => s1 = empty /\ r = r0
    | None => r = file_row i "a.bin" "x/a.bin" d1
    end.
Proof.
  apply (add_file_twice_same_id empty _ _ "a.bin" "x/a.bin").
  - apply NoDup_nil_2.
  - reflexivity.
  - reflexivity.
  - reflexivity.
  - unfold fits, Sql.int64. simpl. lia.
  - unfold fits, Sql.int64. simpl. lia.
Defined.

Lemma filter_replaced f (l : list ContentRow) :
  filter (fun r => c_file_id r = Some f) (filter (fun r => ~ conflicts (Some f) r) l) = [].
Proof.
  apply filter_none, Forall_forall. intros r [Hr _]%list_elem_of_filter Hf.
  apply Hr. by split.
Qed.

Lemma filter_not_replaced f g (l : list ContentRow) :
  g <> f ->
  filter (fun r => c_file_id r = Some g) (filter (fun r => ~ conflicts (Some f) r) l) =
  filter (fun r => c_file_id r = Some g) l.
Proof.
  intros Hne. induction l as [|r l IH]; [done|].
  destruct (decide (c_file_id r = Some g)) as [Hg|Hg].
  - rewrite (filter_cons_True (fun r => ~ conflicts (Some f) r)).
    + rewrite !filter_cons_True by done. by rewrite IH.
    + intros [_ Hf]. congruence.
  - rewrite (filter_cons_False _ r l Hg).
    destruct (decide (conflicts (Some f) r)).
    + by rewrite filter_cons_False by tauto.
    + rewrite filter_cons_True by done. by rewrite filter_cons_False.
Qed.

(** Without the ['metadata'] key the statement has no value to bind. *)
Example add_content_without_metadata_raises :
  add_content empty {| cd_file_id := Some 1%Z; cd_raw_text := None; cd_cleaned_text := None;
                       cd_metadata := None |} = Raised "ProgrammingError".
Proof. reflexivity. Qed.

(** [add_content] once the file id is bound. *)
Lemma add_content_bound s d m :
  bindable s (cd_file_id d) ->
  cd_metadata d = Some m ->
  add_content s d =
  Normal (next_rowid (c_id <$> content s),
          {| files := files s; annotations := annotations s;
             content := filter (fun r => ~ conflicts (cd_file_id d) r) (content s) ++
               [ {| c_id := next_rowid (c_id <$> content s); c_file_id := cd_file_id d;
                    c_raw_text := cd_raw_text d; c_cleaned_text := cd_cleaned_text d;
                    c_metadata := Some (Sql.numeric_affinity (Json.dumps m)) |} ] |},
          {| cd_file_id := cd_file_id d; cd_raw_text := cd_raw_text d;
             cd_cleaned_text := cd_cleaned_text d;
             cd_metadata := Some (Json.Str (Json.dumps m)) |}).
Proof. intros Hb Hm. unfold add_content. by rewrite decide_True, Hm. Qed.

(** The text of a metadata that is not a bare number is no number for
    SQLite: it starts with a brace, a bracket, a quote or a letter. *)
Lemma serialised_text_kept m :
  is_number m = false ->
  Sql.numeric_affinity (Json.dumps m) = Sql.Text (Json.dumps m).
Proof.
  destruct m as [|[]|z|s|items|members]; intros Hm; try discriminate Hm;
    unfold Sql.numeric_affinity; cbn [Json.dumps];
    unfold Json.encode_string, Json.quote;
    rewrite ?ParserProps.app_cons, ?ParserProps.app_nil; reflexivity.
Qed.

(** C3, as stated, fails for a file id of more than 64 bits: [sqlite3]
    cannot bind it, so [add_content] raises [OverflowError] twice and no row
    is stored for the id.  And what is stored is not always the text: the
    column is declared [JSON], which gives it NUMERIC affinity, so a
    metadata that is a bare number is kept as that number. *)
Lemma oversized_file_id_counterexample :
  let c := {| cd_file_id := Some (2 ^ 63)%Z; cd_raw_text := None; cd_cleaned_text := None;
              cd_metadata := Some example_metadata |} in
  let n := {| cd_file_id := Some 1%Z; cd_raw_text := None; cd_cleaned_text := None;
              cd_metadata := Some (Json.Int 5) |} in
  add_content empty c = Raised "OverflowError" /\
  rows_for_file (2 ^ 63) (run (run empty (AddContent c)) (AddContent c)) = [] /\
  (c_metadata <$> content (run empty (AddContent n))) = [Some (Sql.Integer 5)].
Proof. split; [reflexivity|]. split; reflexivity. Qed.

(** C3, amended.  Two [add_content] calls for the same file id [f] of 64
    bits, each with its metadata, both return, and each leaves in the
    caller's dict the text that [json.dumps] made of the metadata.
    Afterwards the content table holds exactly one row for [f], the row of
    the second call: its texts, and the text of its metadata as the column
    keeps it, which is the text itself unless the metadata is a bare
    number.  The rows of other files, the files table and the annotations
    table are as they were.  The text is JSON: [example_text] is the text
    of [example_metadata]. *)
Theorem add_content_replaces (s : t) (f : Z)
    (raw1 clean1 : option string) (m1 : Json.value)
    (raw2 clean2 : option string) (m2 : Json.value) :
  Sql.int64 f ->
  let c1 := {| cd_file_id := Some f; cd_raw_text := raw1; cd_cleaned_text := clean1;
               cd_metadata := Some m1 |} in
  let c2 := {| cd_file_id := Some f; cd_raw_text := raw2; cd_cleaned_text := clean2;
               cd_metadata := Some m2 |} in
  exists i1 s1 c1' i2 s2 c2',
    add_content s c1 = Normal (i1, s1, c1') /\
    add_content s1 c2 = Normal (i2, s2, c2') /\
    cd_metadata c1' = Some (Json.Str (Json.dumps m1)) /\
    cd_metadata c2' = Some (Json.Str (Json.dumps m2)) /\
    rows_for_file f s1 =
      [ {| c_id := i1; c_file_id := Some f; c_raw_text := raw1; c_cleaned_text := clean1;
           c_metadata := Some (Sql.numeric_affinity (Json.dumps m1)) |} ] /\
    rows_for_file f s2 =
      [ {| c_id := i2; c_file_id := Some f; c_raw_text := raw2; c_cleaned_text := clean2;
           c_metadata := Some (Sql.numeric_affinity (Json.dumps m2)) |} ] /\
    (is_number m2 = false ->
     Sql.numeric_affinity (Json.dumps m2) = Sql.Text (Json.dumps m2)) /\
    Json.dumps example_metadata = example_text /\
    (forall g, g <> f -> rows_for_file g s2 = rows_for_file g s) /\
    files s2 = files s /\
    annotations s2 = annotations s.
Proof.
  intros Hf c1 c2. eexists _, _, _, _, _, _.
  split; [by apply (add_content_bound s c1 m1); [left|]|].
  split; [by apply (add_content_bound _ c2 m2); [left|]|].
  split; [done|]. split; [done|].
  unfold rows_for_file. cbn [content cd_file_id c1 c2].
  split; [|split; [|split; [|split; [|split; [|done]]]]].
  - rewrite filter_app, filter_replaced. by rewrite filter_cons_True.
  - rewrite filter_app, filter_replaced. by rewrite filter_cons_True.
  - apply serialised_text_kept.
  - reflexivity.
  - intros g Hg. rewrite !filter_app, !filter_not_replaced by done.
    rewrite !filter_cons_False by (simpl; congruence).
    by rewrite !app_nil_r.
Qed.

(** File 7, written twice on the empty store: the second call replaces the
    row of the first, and the column keeps the text of its metadata. *)
Lemma add_content_replaces_witness :
  exists i1 s1 i2 s2 c1' c2',
    add_content empty {| cd_file_id := Some 7%Z; cd_raw_text := Some "raw";
                         cd_cleaned_text := None; cd_metadata := Some Json.Null |}
      = Normal (i1, s1, c1') /\
    add_content s1 {| cd_file_id := Some 7%Z; cd_raw_text := None;
                      cd_cleaned_text := Some "text";
                      cd_metadata := Some example_metadata |}
      = Normal (i2, s2, c2') /\
    rows_for_file 7 s2 =
      [ {| c_id := i2; c_file_id := Some 7%Z; c_raw_text := None;
           c_cleaned_text := Some "text";
           c_metadata := Some (Sql.Text example_text) |} ].
Proof.
  destruct (add_content_replaces empty 7 (Some "raw") None Json.Null
              None (Some "text") example_metadata)
    as (i1 & s1 & c1' & i2 & s2 & c2' & H1 & H2 & _ & _ & _ & Hrow & Htext & Hex & _).
  - unfold Sql.int64. lia.
  - exists i1, s1, i2, s2, c1', c2'. split; [exact H1|]. split; [exact H2|].
    rewrite Hrow, (Htext eq_refl), Hex. reflexivity.
Defined.

Lemma annotation_key_some r f src :
  annotation_key r = Some (f, src) <-> a_file_id r = Some f /\ a_source_index r = Some src.
Proof.
  unfold annotation_key. destruct (a_file_id r), (a_source_index r); intuition congruence.
Qed.

(** Under a partial key without repetition, two rows of the list with the
    same key are one row. *)
Lemma omap_unique_key {A K : Type} (key : A -> option K) (l : list A) x y k :
  NoDup (omap key l) -> x ∈ l -> y ∈ l -> key x = Some k -> key y = Some k -> x = y.
Proof.
  induction l as [|z l IH]; intros Hnd Hx Hy Hkx Hky; [by apply elem_of_nil in Hx|].
  assert (forall w, w ∈ l -> key w = Some k -> key z = Some k -> False) as Hfresh.
  { intros w Hw Hkw Hkz. simpl in Hnd. rewrite Hkz in Hnd.
    apply NoDup_cons in Hnd as [Hnot _]. apply Hnot.
    apply list_elem_of_omap. eauto. }
  assert (NoDup (omap key l)) as Hnd'.
  { simpl in Hnd. destruct (key z); [by apply NoDup_cons in Hnd as [_ ?]|done]. }
  apply elem_of_cons in Hx as [->|Hx]; apply elem_of_cons in Hy as [->|Hy].
  - done.
  - exfalso. eauto.
  - exfalso. eauto.
  - eauto.
Qed.

Lemma select_annotation_elem s f src r :
  select_annotation s f src = Some r ->
  r ∈ annotations s /\ a_file_id r = f /\ a_source_index r = src /\
  exists k, annotation_key r = Some k.
Proof.
  unfold select_annotation. destruct f as [f|], src as [src|]; try done.
  intros [Hin [Hf Hs]]%(find_some_elem
    (fun r => a_file_id r = Some f /\ a_source_index r = Some src)).
  repeat split; try done. exists (f, src). by apply annotation_key_some.
Qed.

(** A pair that has a row is found, and the call changes nothing. *)
Lemma add_annotation_existing s d f src r :
  one_annotation_per_pair s ->
  bindable s (Some f) ->
  ad_file_id d = Some f ->
  ad_source_index d = Some src ->
  r ∈ annotations s ->
  a_file_id r = Some f ->
  a_source_index r = Some src ->
  add_annotation s d = Normal (a_id r, s).
Proof.
  intros Hnd Hb Hf Hs Hin Hrf Hrs. unfold add_annotation. rewrite Hf, Hs.
  rewrite decide_True by done.
  destruct (find_is_some (fun r => a_file_id r = Some f /\ a_source_index r = Some src)
              (annotations s) r Hin (conj Hrf Hrs)) as [r' Hfind].
  unfold select_annotation. rewrite Hfind.
  apply (find_some_elem (fun r => a_file_id r = Some f /\ a_source_index r = Some src))
    in Hfind as [Hin' [Hf' Hs']].
  assert (r' = r) as ->; [|done].
  apply (omap_unique_key annotation_key (annotations s) r' r (f, src));
    try done; by apply annotation_key_some.
Qed.

Lemma add_annotation_invariant s d i s' :
  one_annotation_per_pair s ->
  add_annotation s d = Normal (i, s') ->
  one_annotation_per_pair s'.
Proof.
  unfold add_annotation, one_annotation_per_pair. intros Hnd.
  case_decide; [|done].
  destruct (select_annotation s (ad_file_id d) (ad_source_index d)) as [r|] eqn:Hsel.
  { by intros [= _ <-]. }
  intros [= _ <-]. simpl. rewrite omap_app. simpl.
  unfold annotation_key at 2. simpl.
  destruct (ad_file_id d) as [f|] eqn:Hf; [|by rewrite app_nil_r].
  destruct (ad_source_index d) as [src|] eqn:Hs; [|by rewrite app_nil_r].
  apply NoDup_app. split; [done|]. split; [|apply NoDup_singleton].
  intros k Hk Hk'. apply list_elem_of_singleton in Hk' as ->.
  apply list_elem_of_omap in Hk as (r & Hin & Hkey).
  apply annotation_key_some in Hkey.
  apply (find_none_all (fun r => a_file_id r = Some f /\ a_source_index r = Some src))
    in Hsel.
  rewrite Forall_forall in Hsel. by apply (Hsel r).
Qed.

Lemma insert_or_ignore_tables s d :
  annotations (insert_file_row s d).2 = annotations s /\
  content (insert_file_row s d).2 = content s.
Proof.
  unfold insert_file_row.
  destruct (fd_filename d), (fd_full_path d) as [p|]; try done.
  by destruct (select_file s (Some p)).
Qed.

Lemma add_file_store s d i s' :
  add_file s d = Normal (i, s') -> s' = (insert_file_row s d).2.
Proof.
  unfold add_file, insert_or_ignore_file. case_decide; [|done].
  destruct (insert_file_row s d) as [[rowid|] s0]; cbn [snd].
  - by intros [= _ <-].
  - destruct (select_file s0 (fd_full_path d)); [by intros [= _ <-]|done].
Qed.

Lemma add_file_annotations s d i s' :
  add_file s d = Normal (i, s') -> annotations s' = annotations s.
Proof. intros ->%add_file_store. apply insert_or_ignore_tables. Qed.

Lemma add_content_tables s d i s' d' :
  add_content s d = Normal (i, s', d') ->
  files s' = files s /\ annotations s' = annotations s.
Proof.
  unfold add_content. case_decide; [|done].
  destruct (cd_metadata d); [|done]. cbv zeta. by intros [= _ <- _].
Qed.

(** Every writing call keeps the annotations free of repeated pairs. *)
Lemma run_invariant s o : one_annotation_per_pair s -> one_annotation_per_pair (run s o).
Proof.
  intros Hnd. destruct o as [d|d|d|i]; simpl.
  - destruct (add_file s d) as [[i s']|] eqn:H; [|done].
    unfold one_annotation_per_pair. by rewrite (add_file_annotations _ _ _ _ H).
  - destruct (add_annotation s d) as [[i s']|] eqn:H; [|done].
    by eapply add_annotation_invariant.
  - destruct (add_content s d) as [[[i s'] d']|] eqn:H; [|done].
    unfold one_annotation_per_pair. by rewrite (proj2 (add_content_tables _ _ _ _ _ H)).
  - done.
Qed.

Lemma run_unique_paths s o : unique_paths s -> unique_paths (run s o).
Proof.
  unfold unique_paths. intros Hnd. destruct o as [d|d|d|i]; simpl.
  - destruct (add_file s d) as [[i s']|] eqn:H; [|done].
    apply add_file_store in H as ->. unfold insert_file_row.
    destruct (fd_filename d) as [fn|], (fd_full_path d) as [p|]; try done.
    destruct (select_file s (Some p)) eqn:Hsel; [done|]. cbn [snd files].
    rewrite fmap_app. apply NoDup_app. split; [done|]. split; [|apply NoDup_singleton].
    intros x Hx Hx'. apply list_elem_of_singleton in Hx'. simpl in Hx'. subst x.
    apply list_elem_of_fmap in Hx as (y & Hy & Hin).
    apply (find_none_all (fun r => f_full_path r = p)) in Hsel.
    rewrite Forall_forall in Hsel. by apply (Hsel y).
  - unfold add_annotation. case_decide; [|done].
    by destruct (select_annotation s (ad_file_id d) (ad_source_index d)).
  - destruct (add_content s d) as [[[i s'] d']|] eqn:H; [|done].
    by rewrite (proj1 (add_content_tables _ _ _ _ _ H)).
  - rewrite <- list_fmap_compose.
    erewrite list_fmap_ext; [exact Hnd|]. intros ? r _. simpl. by case_decide.
Qed.

(** The schema's constraints hold in every store the program can build. *)
Lemma reachable_invariants s : reachable s -> unique_paths s /\ one_annotation_per_pair s.
Proof.
  induction 1 as [|s o _ [Hp Ha]].
  - split; apply NoDup_nil_2.
  - split; [by apply run_unique_paths|by apply run_invariant].
Qed.

Lemma fits_zero : fits (Some 0%Z).
Proof. unfold fits, Sql.int64. simpl. lia. Qed.

(** The id of a row found in the files table can be bound. *)
Lemma bindable_found s p r : select_file s (Some p) = Some r -> bindable s (Some (f_id r)).
Proof. intros [Hin _]%select_file_elem. right. by apply list_elem_of_fmap_2. Qed.

Lemma bindable_files s s' z : files s' = files s -> bindable s z -> bindable s' z.
Proof. unfold bindable. by intros ->. Qed.

(** [add_file] for a record with a file name, a path and a size of 64 bits
    returns, and its id is that of the row then found under the path. *)
Lemma add_file_returns s d fn p :
  fd_filename d = Some fn ->
  fd_full_path d = Some p ->
  fits (fd_size d) ->
  exists i s1 r,
    add_file s d = Normal (i, s1) /\
    select_file s1 (Some p) = Some r /\ f_id r = i /\
    (exists fx, files s1 = files s ++ fx) /\
    annotations s1 = annotations s /\
    (is_Some (select_file s (Some p)) -> s1 = s).
Proof.
  intros Hfn Hp Hfit. unfold add_file. rewrite insert_or_ignore_fits by done.
  unfold insert_file_row. rewrite Hfn, Hp.
  destruct (select_file s (Some p)) as [r0|] eqn:Hsel.
  - rewrite Hsel. exists (f_id r0), s, r0.
    split; [done|]. split; [done|]. split; [done|].
    split; [exists []; by rewrite app_nil_r|]. done.
  - exists (next_rowid (f_id <$> files s)).
    eexists. exists (file_row (next_rowid (f_id <$> files s)) fn p d).
    split; [reflexivity|]. split.
    + unfold select_file in *. cbn [files].
      rewrite (find_app_none (fun r => f_full_path r = p)) by done.
      simpl. by rewrite bool_decide_eq_true_2.
    + split; [done|]. split; [by eexists|]. split; [done|]. by intros [? ?].
Qed.

Lemma add_annotation_returns s d f src :
  ad_file_id d = Some f ->
  ad_source_index d = Some src ->
  bindable s (Some f) ->
  exists j s2,
    add_annotation s d = Normal (j, s2) /\
    files s2 = files s /\
    (exists ax, annotations s2 = annotations s ++ ax) /\
    is_Some (select_annotation s2 (Some f) (Some src)) /\
    (is_Some (select_annotation s (Some f) (Some src)) -> s2 = s).
Proof.
  intros Hf Hs Hb. unfold add_annotation. rewrite Hf, Hs.
  rewrite decide_True by done.
  destruct (select_annotation s (Some f) (Some src)) as [r|] eqn:Hsel.
  - exists (a_id r), s. rewrite Hsel. split; [done|]. split; [done|].
    split; [exists []; by rewrite app_nil_r|]. split; [by eexists|done].
  - eexists _, _. split; [reflexivity|]. split; [done|]. split; [by eexists|].
    split; [|by intros [? ?]].
    unfold select_annotation in *. cbn [annotations].
    rewrite (find_app_none (fun r => a_file_id r = Some f /\ a_source_index r = Some src))
      by done.
    simpl. rewrite bool_decide_eq_true_2; [by eexists|done].
Qed.

Lemma select_file_extend s s' fx p r :
  files s' = files s ++ fx -> select_file s p = Some r -> select_file s' p = Some r.
Proof.
  intros Hfiles. unfold select_file. destruct p as [p|]; [|done]. rewrite Hfiles.
  apply (find_app_some (fun r => f_full_path r = p)).
Qed.

Lemma select_annotation_extend s s' ax f src a :
  annotations s' = annotations s ++ ax ->
  select_annotation s f src = Some a -> select_annotation s' f src = Some a.
Proof.
  intros Hann. unfold select_annotation. destruct f as [f|], src as [src|]; try done.
  rewrite Hann.
  apply (find_app_some (fun r => a_file_id r = Some f /\ a_source_index r = Some src)).
Qed.

End StoreProps.

(** ** The writer *)
Module PipelineProps.
Import Store StoreSpec StoreProps Pipeline PipelineSpec.

Lemma save_entries_flat self entries_batch :
  save_entries_to_db self entries_batch = foldl save_item (self, 0) (flat entries_batch).
Proof.
  unfold save_entries_to_db, flat. generalize (self, 0).
  induction entries_batch as [|[path entries] rest IH]; intros st; [done|].
  cbn [foldl mbind list_bind]. rewrite foldl_app, <- IH. f_equal.
  cbn [fst snd]. generalize st. clear.
  induction entries as [|e entries IH]; intros st; [done|]. cbn. apply IH.
Qed.

Lemma covered_extend s s' fx ax pe :
  files s' = files s ++ fx ->
  annotations s' = annotations s ++ ax ->
  covered s pe -> covered s' pe.
Proof.
  intros Hf Ha (r & a & Hr & Hann). exists r, a.
  split; [by eapply select_file_extend|by eapply select_annotation_extend].
Qed.

(** One turn of the writer. *)
Lemma save_item_spec st pe :
  let st' := save_item st pe in
  dry_run st'.1 = dry_run st.1 /\
  (exists fx, files (db st'.1) = files (db st.1) ++ fx) /\
  (exists ax, annotations (db st'.1) = annotations (db st.1) ++ ax) /\
  (dry_run st.1 = false -> covered (db st'.1) pe) /\
  (covered (db st.1) pe ->
   files (db st'.1) = files (db st.1) /\ annotations (db st'.1) = annotations (db st.1)) /\
  (one_annotation_per_pair (db st.1) -> one_annotation_per_pair (db st'.1)).
Proof.
  destruct st as [self n], pe as [path e]. unfold save_item, save_entry. cbn [fst snd].
  destruct (dry_run self) eqn:Hdry.
  { cbn [fst snd db dry_run]. repeat split; try done; exists []; by rewrite app_nil_r. }
  destruct (add_file_returns (db self) (file_data path e) _ _ eq_refl eq_refl fits_zero)
    as (i & s1 & r & -> & Hsel & Hid & [fx Hfx] & Hann1 & Hsame1).
  assert (bindable s1 (Some i)) as Hb1 by (subst i; by eapply bindable_found).
  destruct (add_annotation_returns s1 (annotation_data i e) _ _ eq_refl eq_refl Hb1)
    as (j & s2 & Hadd & Hfiles2 & [ax Hax] & [a Ha] & Hsame2).
  rewrite Hadd.
  assert (bindable s2 (Some i)) as Hb2 by (by eapply bindable_files).
  destruct (add_content s2 (content_data i e)) as [[[k s3] c]|] eqn:Hcontent;
    [|by rewrite (add_content_bound s2 (content_data i e) _ Hb2 eq_refl) in Hcontent].
  destruct (add_content_tables _ _ _ _ _ Hcontent) as [Hfiles3 Hann3].
  cbn [fst snd db dry_run with_db]. rewrite Hfiles3, Hann3, Hfiles2, Hax, Hann1.
  split; [done|]. split; [by eexists|]. split; [by eexists|].
  split; [|split].
  - intros _. exists r, a. cbn [fst snd]. subst i. split.
    + eapply (select_file_extend s1 s3 []); [|done]. by rewrite Hfiles3, Hfiles2, app_nil_r.
    + eapply (select_annotation_extend s2 s3 []); [|done]. by rewrite Hann3, app_nil_r.
  - intros (r0 & a0 & Hr0 & Ha0). cbn [fst snd] in Hr0, Ha0.
    assert (s1 = db self) as Hs1 by (apply Hsame1; by eexists).
    subst s1. assert (Some r = Some r0) as [= <-] by (rewrite <- Hsel; exact Hr0). subst i.
    assert (s2 = db self) as Hs2 by (apply Hsame2; by eexists).
    subst s2. split; [done|]. by rewrite <- Hax.
  - intros Hinv. unfold one_annotation_per_pair. rewrite Hann3.
    apply (add_annotation_invariant s1 (annotation_data i e) j s2); [|done].
    unfold one_annotation_per_pair. by rewrite Hann1.
Qed.

Lemma save_item_dry st pe :
  dry_run st.1 = true -> db (save_item st pe).1 = db st.1.
Proof.
  destruct st as [self n], pe as [path e]. unfold save_item, save_entry. cbn [fst snd].
  by intros ->.
Qed.

(** A run of the writer only appends to the files and annotations tables,
    and keeps the annotations free of repeated pairs. *)
Lemma run_extends l st :
  let st' := foldl save_item st l in
  dry_run st'.1 = dry_run st.1 /\
  (exists fx, files (db st'.1) = files (db st.1) ++ fx) /\
  (exists ax, annotations (db st'.1) = annotations (db st.1) ++ ax) /\
  (dry_run st.1 = true -> db st'.1 = db st.1) /\
  (one_annotation_per_pair (db st.1) -> one_annotation_per_pair (db st'.1)).
Proof.
  revert st. induction l as [|pe l IH]; intros st; cbn [foldl].
  - repeat split; try done; exists []; by rewrite app_nil_r.
  - destruct (IH (save_item st pe)) as (Hd & [fx Hf] & [ax Ha] & Hdry & Hinv).
    destruct (save_item_spec st pe) as (Hd1 & [fx1 Hf1] & [ax1 Ha1] & _ & _ & Hinv1).
    split; [congruence|]. split; [exists (fx1 ++ fx); by rewrite Hf, Hf1, app_assoc|].
    split; [exists (ax1 ++ ax); by rewrite Ha, Ha1, app_assoc|].
    split; [|by auto].
    intros Htrue. rewrite Hdry by congruence. by apply save_item_dry.
Qed.

(** After a writing run every turn's entry is covered. *)
Lemma run_covers l st :
  dry_run st.1 = false -> Forall (covered (db (foldl save_item st l).1)) l.
Proof.
  revert st. induction l as [|pe l IH]; intros st Hdry; cbn [foldl]; [constructor|].
  destruct (save_item_spec st pe) as (Hd1 & _ & _ & Hcov & _).
  constructor; [|apply IH; congruence].
  destruct (run_extends l (save_item st pe)) as (_ & [fx Hf] & [ax Ha] & _).
  eapply covered_extend; [done|done|by apply Hcov].
Qed.

(** A run over entries that are all covered writes no file row and no
    annotation row. *)
Lemma run_noop l st :
  Forall (covered (db st.1)) l ->
  files (db (foldl save_item st l).1) = files (db st.1) /\
  annotations (db (foldl save_item st l).1) = annotations (db st.1).
Proof.
  revert st. induction l as [|pe l IH]; intros st Hall; cbn [foldl]; [done|].
  apply Forall_cons in Hall as [Hpe Hl].
  destruct (save_item_spec st pe) as (_ & _ & _ & _ & Hsame & _).
  destruct (Hsame Hpe) as [Hf Ha].
  destruct (IH (save_item st pe)) as [Hf' Ha'].
  - eapply Forall_impl; [exact Hl|]. intros x Hx.
    eapply (covered_extend _ _ [] []); [| |exact Hx]; by rewrite app_nil_r.
  - split; congruence.
Qed.

(** C2, as stated, fails for a pair with a NULL.  The lookup compares with
    [=], which is never true of a NULL, so it finds no row and every call
    inserts one: on the empty store two calls with the file id [None], or
    with the source index [None], return two ids and leave two rows with
    the same pair. *)
Lemma null_pair_duplicated_counterexample :
  let pairs (s : Store.t) := (fun r => (a_file_id r, a_source_index r)) <$> annotations s in
  let d := {| ad_file_id := None; ad_annotation_date := None;
              ad_description := Some "first"; ad_source_index := Some "x/index_.txt" |} in
  let d' := {| ad_file_id := Some 1%Z; ad_annotation_date := None;
               ad_description := Some "first"; ad_source_index := None |} in
  (exists s1 s2,
     add_annotation Store.empty d = Normal (1%Z, s1) /\
     add_annotation s1 d = Normal (2%Z, s2) /\
     pairs s2 = [(None, Some "x/index_.txt"); (None, Some "x/index_.txt")]) /\
  (exists s1 s2,
     add_annotation Store.empty d' = Normal (1%Z, s1) /\
     add_annotation s1 d' = Normal (2%Z, s2) /\
     pairs s2 = [(Some 1%Z, None); (Some 1%Z, None)]).
Proof. split; eexists _, _; repeat split; reflexivity. Qed.

(** C2, amended.  On a store with at most one annotation row per pair of a
    file id and a source index that are not NULL: [add_annotation] for such
    a pair that has a row, with a file id that [sqlite3] binds, returns that
    row's id and leaves the store as it is; every writing call keeps the
    store free of repeated pairs; and a run of the writer over a batch,
    followed by a second run over the same batch, leaves the annotations
    table as the first run left it, with no pair repeated. *)
Theorem annotations_never_duplicated (s : Store.t) :
  one_annotation_per_pair s ->
  (forall d f src r,
     bindable s (Some f) ->
     ad_file_id d = Some f ->
     ad_source_index d = Some src ->
     r ∈ annotations s ->
     a_file_id r = Some f ->
     a_source_index r = Some src ->
     add_annotation s d = Normal (a_id r, s)) /\
  (forall o, one_annotation_per_pair (run s o)) /\
  (forall self entries_batch,
     db self = s ->
     let once := (save_entries_to_db self entries_batch).1 in
     let twice := (save_entries_to_db once entries_batch).1 in
     one_annotation_per_pair (db once) /\
     one_annotation_per_pair (db twice) /\
     annotations (db twice) = annotations (db once)).
Proof.
  intros Hinv. split; [|split].
  - intros d f src r. by apply add_annotation_existing.
  - intros o. by apply run_invariant.
  - intros self batch <- once twice. subst once twice.
    rewrite !save_entries_flat.
    set (l := flat batch). set (st1 := foldl save_item (self, 0) l).
    destruct (run_extends l (self, 0)) as (Hd1 & _ & _ & _ & Hinv1).
    destruct (run_extends l (st1.1, 0)) as (_ & _ & _ & Hdry2 & Hinv2).
    fold st1 in Hd1, Hinv1. cbn [fst] in *.
    split; [by auto|]. split; [by auto|].
    destruct (dry_run self) eqn:Hdry.
    + by rewrite Hdry2.
    + apply (run_noop l (st1.1, 0)). cbn [fst].
      by apply (run_covers l (self, 0)).
Qed.

(** A store with one annotation, for file 1 and [x/index_.txt]; the call
    names the same pair with another description. *)
Lemma annotations_never_duplicated_witness :
  let r := {| a_id := 1; a_file_id := Some 1%Z; a_annotation_date := None;
              a_description := Some "first"; a_source_index := Some "x/index_.txt" |} in
  let s := {| files := []; annotations := [r]; content := [] |} in
  let d := {| ad_file_id := Some 1%Z; ad_annotation_date := None;
              ad_description := Some "second"; ad_source_index := Some "x/index_.txt" |} in
  add_annotation s d = Normal (1%Z, s).
Proof.
  intros r s d.
  apply (proj1 (annotations_never_duplicated s (NoDup_singleton _)) d 1%Z "x/index_.txt" r).
  - left. unfold Sql.int64. lia.
  - reflexivity.
  - reflexivity.
  - apply list_elem_of_singleton. reflexivity.
  - reflexivity.
  - reflexivity.
Defined.

End PipelineProps.

(** ** The statistics of a dry run *)
Module StatsProps.
Import Stats StatsSpec.

Lemma count_incr (c : Counter) (k key : string) :
  count (incr k c) key = (count c key + if decide (key = k) then 1 else 0)%nat.
Proof.
  unfold incr, count. destruct (decide (key = k)) as [->|Hne].
  - rewrite lookup_insert_eq. simpl. lia.
  - rewrite lookup_insert_ne by done. simpl. lia.
Qed.

(** C9, as stated, fails: a file name without extension is counted under
    [no_extension], not under [unknown]; and an entry that lacks the keys
    is counted in no bucket of the three counters. *)
Lemma unknown_bucket_counterexample :
  count (file_types (add_entry new readme)) "unknown" = 0%nat /\
  count (file_types (add_entry new readme)) "no_extension" = 1%nat /\
  categories (add_entry new bare) = ∅ /\
  file_types (add_entry new bare) = ∅ /\
  authors (add_entry new bare) = ∅.
Proof. repeat split; reflexivity. Qed.

(** C9, amended.  [add_entry] counts the entry once in [total_entries].  When
    the entry has the key, the category counter, the file-type counter and
    the author counter each go up by one in exactly one bucket and stay as
    they are in every other: the bucket is the category or the author, or
    [unknown] when that value is [None] or empty, and for the file type the
    extension of the file name, or [no_extension] when it has none.  When
    the entry lacks the key, the counter does not change. *)
Theorem add_entry_counts_once (self : StatsAnalyzer) (entry : EntryDict) (key : string) :
  let self' := add_entry self entry in
  let bump (bucket : option string) : nat :=
    match bucket with
    | Some b => if decide (key = b) then 1 else 0
    | None => 0
    end%nat in
  total_entries self' = S (total_entries self) /\
  count (categories self') key =
    (count (categories self) key +
     bump ((fun c => or_else c "unknown") <$> (e_metadata entry ≫= m_category)))%nat /\
  count (file_types self') key =
    (count (file_types self) key + bump (file_type_of <$> e_filename entry))%nat /\
  count (authors self') key =
    (count (authors self) key +
     bump ((fun a => or_else a "unknown") <$> (e_metadata entry ≫= m_author)))%nat /\
  or_else None "unknown" = "unknown" /\
  or_else (Some "") "unknown" = "unknown" /\
  (forall f, PurePath.suffix (PurePath.of_string f) = "" -> file_type_of f = "no_extension").
Proof.
  intros self' bump. subst self' bump. unfold add_entry. cbn [total_entries categories file_types authors].
  split; [done|]. split; [|split; [|split; [|split; [done|split; [done|]]]]].
  - destruct (e_metadata entry ≫= m_category) as [c|]; cbn [fmap option_fmap option_map].
    + apply count_incr.
    + lia.
  - destruct (e_filename entry) as [f|]; cbn [fmap option_fmap option_map].
    + apply count_incr.
    + lia.
  - destruct (e_metadata entry ≫= m_author) as [a|]; cbn [fmap option_fmap option_map].
    + apply count_incr.
    + lia.
  - intros f Hf. unfold file_type_of. by rewrite Hf.
Qed.

(** The file name [README] has no extension. *)
Lemma add_entry_counts_once_witness :
  file_type_of "README" = "no_extension".
Proof.
  apply (proj2 (proj2 (proj2 (proj2 (proj2 (proj2
           (add_entry_counts_once new readme "unknown"))))))).
  reflexivity.
Defined.

End StatsProps.

(** ** The coverage analyzer *)
Module CoverageProps.
Import Coverage CoverageSpec.

Lemma split1_go_colon cur s :
  (exists after, Text.split1_go ":" cur s !! 1 = Some after) \/
  (forall r, ~ exists pre, s = pre +:+ String ":" r).
Proof.
  revert cur. induction s as [|c s IH]; intros cur; cbn [Text.split1_go].
  - right. intros r [pre Hpre]. by destruct pre.
  - destruct (Ascii.eqb_spec c ":") as [->|Hne]; [left; by eexists|].
    destruct (IH (String c cur)) as [Hl|Hr]; [by left|right].
    intros r [pre Hpre].
    destruct pre as [|c' pre]; rewrite ?ParserProps.app_nil, ?ParserProps.app_cons in Hpre.
    + congruence.
    + injection Hpre as _ Hs. apply (Hr r). by exists pre.
Qed.

Ltac app_simpl := rewrite ?ParserProps.app_nil, ?ParserProps.app_cons.

Lemma lstrip_suffix s : exists pre, s = pre +:+ Text.lstrip s.
Proof.
  induction s as [|c s [pre IH]]; [by exists ""|]. cbn [Text.lstrip].
  destruct (Text.isspace c); [|by exists ""].
  exists (String c pre). app_simpl. by f_equal.
Qed.

Lemma string_app_assoc (a b c : string) : (a +:+ b) +:+ c = a +:+ (b +:+ c).
Proof. induction a as [|x a IH]; [done|]. app_simpl. by f_equal. Qed.

Lemma string_app_nil_r (a : string) : a +:+ "" = a.
Proof. induction a as [|x a IH]; [done|]. app_simpl. by f_equal. Qed.

Lemma rev_app_spec a b : String.rev_app a b = String.rev a +:+ b.
Proof.
  unfold String.rev. revert b. induction a as [|x a IH]; intros b; [done|].
  cbn [String.rev_app].
  rewrite IH, (IH (String x "")). by rewrite string_app_assoc.
Qed.

Lemma rev_cons x a : String.rev (String x a) = String.rev a +:+ String x "".
Proof. unfold String.rev at 1. cbn [String.rev_app]. apply rev_app_spec. Qed.

Lemma rev_app a b : String.rev (a +:+ b) = String.rev b +:+ String.rev a.
Proof.
  induction a as [|x a IH]; app_simpl.
  - change (String.rev "") with "". by rewrite string_app_nil_r.
  - by rewrite !rev_cons, IH, string_app_assoc.
Qed.

Lemma rev_involutive a : String.rev (String.rev a) = a.
Proof.
  induction a as [|x a IH]; [done|]. rewrite rev_cons, rev_app, IH. done.
Qed.

(** A stripped text is a piece of the text. *)
Lemma strip_infix s : exists pre post, s = pre +:+ Text.strip s +:+ post.
Proof.
  unfold Text.strip, Text.rstrip.
  destruct (lstrip_suffix s) as [pre Hpre].
  destruct (lstrip_suffix (String.rev (Text.lstrip s))) as [post Hpost].
  exists pre, (String.rev post). rewrite Hpre at 1. f_equal.
  rewrite <- rev_app, <- Hpost. by rewrite rev_involutive.
Qed.

(** A line that is a [File Name:] line once stripped has a colon. *)
Lemma file_name_line_index line :
  Text.startswith "File Name:" (Text.strip line) = true ->
  exists after, Text.split1 ":"%char line !! 1 = Some after.
Proof.
  intros [r Hr]%ParserProps.startswith_app.
  destruct (split1_go_colon "" line) as [H|H]; [done|]. exfalso.
  destruct (strip_infix line) as (pre & post & Hline). rewrite Hr in Hline.
  apply (H (r +:+ post)). exists (pre +:+ "File Name").
  rewrite Hline. rewrite !string_app_assoc. by app_simpl.
Qed.

(** The search for the file name of a block never raises. *)
Lemma first_filename_normal lines : first_filename lines = Normal (first_name lines).
Proof.
  induction lines as [|line rest IH]; [done|]. cbn [first_filename first_name].
  destruct (Text.startswith "File Name:" (Text.strip line)) eqn:Hs; [|done].
  destruct (file_name_line_index _ Hs) as [after Hafter].
  unfold py_index. rewrite Hafter. cbn [mbind outcome_bind].
  by case_decide.
Qed.

Lemma process_entry_normal category a entry :
  process_entry category a entry =
  Normal match block_name entry with
         | Some filename =>
             {| all_files := all_files a;
                indexed_files := indexed_files a ∪ {[filename]};
                categories := Stats.incr category (categories a) |}
         | None => a
         end.
Proof.
  unfold process_entry, block_name. case_decide; [done|].
  rewrite first_filename_normal. cbn [mbind outcome_bind].
  by destruct (first_name _).
Qed.

Lemma process_entries_normal category a entries :
  exists a',
    process_entries category a entries = Normal a' /\
    all_files a' = all_files a /\
    indexed_files a' = indexed_files a ∪ list_to_set (omap block_name entries).
Proof.
  revert a. induction entries as [|e entries IH]; intros a.
  - exists a. split; [done|]. split; [done|]. simpl. set_solver.
  - cbn [process_entries]. rewrite process_entry_normal. cbn [mbind outcome_bind].
    destruct (block_name e) as [f|] eqn:Hname.
    + destruct (IH {| all_files := all_files a; indexed_files := indexed_files a ∪ {[f]};
                      categories := Stats.incr category (categories a) |})
        as (a' & -> & Hall & Hidx).
      exists a'. split; [done|]. split; [done|]. rewrite Hidx. cbn [omap list_omap indexed_files].
      rewrite Hname. set_solver.
    + destruct (IH a) as (a' & -> & Hall & Hidx).
      exists a'. split; [done|]. split; [done|]. rewrite Hidx. cbn [omap list_omap].
      by rewrite Hname.
Qed.

Lemma process_all_normal a index_files :
  exists a',
    process_all a index_files = Normal a' /\
    all_files a' = all_files a /\
    indexed_files a' = indexed_files a ∪ named_files index_files.
Proof.
  unfold named_files. revert a.
  induction index_files as [|[path content] rest IH]; intros a.
  - exists a. split; [done|]. split; [done|]. simpl. set_solver.
  - cbn [process_all]. unfold process_index_file.
    destruct (process_entries_normal (_determine_category path) a (Text.split "///" content))
      as (a1 & -> & Hall1 & Hidx1).
    cbn [mbind outcome_bind].
    destruct (IH a1) as (a' & -> & Hall & Hidx).
    exists a'. split; [done|]. split; [congruence|].
    rewrite Hidx, Hidx1. cbn [mbind list_bind snd]. rewrite list_to_set_app_L. set_solver.
Qed.

Lemma load_all_files_spec a manifest :
  all_files (load_all_files a manifest) = all_files a ∪ manifest_paths manifest /\
  indexed_files (load_all_files a manifest) = indexed_files a.
Proof.
  unfold load_all_files, manifest_paths. revert a.
  induction manifest as [|line rest IH]; intros a; cbn [foldl fmap list_fmap].
  - split; [|done]. simpl. set_solver.
  - case_decide as Hblank.
    + destruct (IH a) as [-> ->]. split; [|done].
      by rewrite filter_cons_False by (unfold IndexParser.nonempty; tauto).
    + destruct (IH {| all_files := all_files a ∪ {[Text.strip line]};
                      indexed_files := indexed_files a; categories := categories a |})
        as [-> ->].
      split; [|done]. rewrite filter_cons_True by done. cbn [all_files]. set_solver.
Qed.

(** C7, as stated, fails.  The manifest lists [a.bin], the index file names
    [b.bin] and [c.bin]: no path of the manifest is named, yet the report
    counts 2 indexed files of 1, a coverage of 200 percent and -1 missing
    files.  And the percentage is the product, rounded, of the rounded
    quotient: for 7 indexed files of 100 it is not 7. *)
Lemma indexed_outside_manifest_counterexample :
  let manifest := ["a.bin"] in
  let index_files :=
    [("data/exploits/index_.txt",
      "File Name: b.bin" +:+ Text.newline +:+ "///" +:+ "File Name: c.bin")] in
  size (covered_paths manifest index_files) = 0%nat /\
  analyze manifest index_files =
    Normal {| s_total_files := 1; s_indexed_files := 2;
              s_coverage_percent := PyFloat 200%float; s_missing_files := -1 |} /\
  generate_report {| all_files := list_to_set (pretty <$> seq 0 100);
                     indexed_files := list_to_set (pretty <$> seq 0 7);
                     categories := ∅ |} =
    {| s_total_files := 100; s_indexed_files := 7;
       s_coverage_percent := PyFloat 0x1.c000000000001p+2%float; s_missing_files := 93 |}.
Proof. repeat split; vm_compute; reflexivity. Qed.

(** C7, amended.  The analysis never raises.  Its report has for total the
    number of distinct paths of the manifest, and for indexed the number of
    distinct names in [named_files]: each block of an index file that is
    not blank gives at most one name, the value of its first [File Name:]
    line whose value is not empty, and a name counts whether the manifest
    lists it or not.  Missing is the difference of the two, which may be
    negative.  The percentage is the integer 0 when the total is 0, and
    otherwise the float [indexed / total * 100]. *)
Theorem coverage_report_summary (manifest : list string) (index_files : list (string * string)) :
  let total := Z.of_nat (size (manifest_paths manifest)) in
  let indexed := Z.of_nat (size (named_files index_files)) in
  exists r,
    analyze manifest index_files = Normal r /\
    s_total_files r = total /\
    s_indexed_files r = indexed /\
    s_missing_files r = (total - indexed)%Z /\
    s_coverage_percent r =
      (if (0 <? total)%Z
       then PyFloat (PrimFloat.mul (PrimFloat.div (float_of_Z indexed) (float_of_Z total))
                                   (float_of_Z 100))
       else PyInt 0) /\
    (total = 0%Z -> s_coverage_percent r = PyInt 0).
Proof.
  intros total indexed. unfold analyze.
  destruct (load_all_files_spec new manifest) as [Hall Hidx].
  destruct (process_all_normal (load_all_files new manifest) index_files)
    as (a & -> & Hall' & Hidx').
  cbn [mbind outcome_bind]. eexists. split; [reflexivity|].
  assert (all_files a = manifest_paths manifest) as Ha.
  { rewrite Hall', Hall. cbn [new all_files]. set_solver. }
  assert (indexed_files a = named_files index_files) as Hi.
  { rewrite Hidx', Hidx. cbn [new indexed_files]. set_solver. }
  unfold generate_report. rewrite Ha, Hi.
  cbn [s_total_files s_indexed_files s_missing_files s_coverage_percent].
  fold total indexed. repeat split; try done.
  intros ->. done.
Qed.

(** An empty manifest and one index file that names [x.bin]: the total is
    0 and the percentage the integer 0. *)
Lemma coverage_report_summary_witness :
  exists r,
    analyze [] [("data/index_.txt", "File Name: x.bin")] = Normal r /\
    s_indexed_files r = 1%Z /\
    s_coverage_percent r = PyInt 0.
Proof.
  destruct (coverage_report_summary [] [("data/index_.txt", "File Name: x.bin")])
    as (r & Hrun & _ & Hindexed & _ & _ & Hzero).
  exists r. split; [exact Hrun|]. split; [exact Hindexed|].
  apply Hzero. reflexivity.
Defined.

(** C8.  The analyzer's classification is not the parser's: a part
    [systemerror] gives [error] for the one and [systemerror] for the other,
    and a part that only contains a marker, such as [utils], is classified by
    the analyzer alone. *)
Theorem analyzer_category_differs :
  ParserSpec.classify "data/systemerror/index_.txt" = "systemerror" /\
  _determine_category "data/systemerror/index_.txt" = "error" /\
  ParserSpec.classify "data/utils/index_.txt" = "unknown" /\
  _determine_category "data/utils/index_.txt" = "tool".
Proof. repeat split; reflexivity. Qed.

End CoverageProps.

(** * Further properties of the code *)

(** ** The store: schema, lookups and the processed flag *)
Module StoreExtra.
Import Store StoreSpec StoreProps SchemaSpec.

Lemma foldr_max_ge i rest x : x ∈ i :: rest -> (x <= foldr Z.max i rest)%Z.
Proof.
  induction rest as [|y rest IH]; simpl.
  - intros ->%list_elem_of_singleton. lia.
  - rewrite !elem_of_cons. intros [->|[->|Hx]].
    + assert (i <= foldr Z.max i rest)%Z by (apply IH; left). lia.
    + lia.
    + assert (x <= foldr Z.max i rest)%Z by (apply IH; by right). lia.
Qed.

(** A new rowid is above every rowid in use, and at least 1 when those
    are. *)
Lemma next_rowid_fresh ids :
  (forall x, x ∈ ids -> (x < next_rowid ids)%Z) /\
  (Forall (fun i => (1 <= i)%Z) ids -> (1 <= next_rowid ids)%Z).
Proof.
  destruct ids as [|i rest]; simpl.
  - split; [by intros x ?%elem_of_nil|lia].
  - split.
    + intros x Hx. apply foldr_max_ge in Hx. lia.
    + intros Hall. apply Forall_cons in Hall as [Hi _].
      assert (i <= foldr Z.max i rest)%Z by (apply foldr_max_ge; left). lia.
Qed.

Lemma NoDup_snoc_fresh (ids : list Z) :
  NoDup ids -> NoDup (ids ++ [next_rowid ids]).
Proof.
  intros Hnd. apply NoDup_app. split; [done|]. split; [|apply NoDup_singleton].
  intros x Hx ->%list_elem_of_singleton.
  apply (proj1 (next_rowid_fresh ids)) in Hx. lia.
Qed.

Lemma filter_fmap_sublist {A B} (f : A -> B) (P : A -> Prop) `{!forall x, Decision (P x)} l :
  f <$> filter P l `sublist_of` f <$> l.
Proof. apply fmap_sublist, sublist_filter. Qed.

Lemma omap_sublist {A B} (f : A -> option B) (l k : list A) :
  l `sublist_of` k -> omap f l `sublist_of` omap f k.
Proof.
  induction 1 as [|x l k _ IH|x l k _ IH]; simpl.
  - constructor.
  - destruct (f x); [by constructor|done].
  - destruct (f x); [by constructor|done].
Qed.

Lemma run_schema s o : schema s -> schema (run s o).
Proof.
  intros Hs. pose proof Hs as (Hf & Hp & Ha & Hc & Hu & Hpos).
  apply Forall_app in Hpos as [Hfpos Hpos]. apply Forall_app in Hpos as [Hapos Hcpos].
  destruct o as [d|d|d|i]; simpl.
  - destruct (add_file s d) as [[i s']|] eqn:H; [|done].
    pose proof (run_unique_paths s (AddFile d) Hp) as Hp'. simpl in Hp'. rewrite H in Hp'.
    apply add_file_store in H as ->. unfold insert_file_row in *.
    destruct (fd_filename d) as [fn|], (fd_full_path d) as [p|]; try done.
    destruct (select_file s (Some p)) eqn:Hsel; [done|].
    unfold schema. cbn [snd files annotations content] in *.
    split; [rewrite fmap_app; by apply NoDup_snoc_fresh|].
    split; [done|]. split; [done|]. split; [done|]. split; [done|].
    rewrite fmap_app, !Forall_app. repeat split; try done.
    apply Forall_singleton. simpl. by apply next_rowid_fresh.
  - unfold add_annotation. case_decide; [|done].
    destruct (select_annotation s (ad_file_id d) (ad_source_index d)); [done|].
    unfold schema. cbn [files annotations content].
    split; [done|]. split; [done|].
    split; [rewrite fmap_app; by apply NoDup_snoc_fresh|].
    split; [done|]. split; [done|].
    rewrite fmap_app, !Forall_app. repeat split; try done.
    apply Forall_singleton. simpl. by apply next_rowid_fresh.
  - unfold add_content. case_decide; [|done]. destruct (cd_metadata d) as [m|]; [|done].
    unfold schema. cbn [files annotations content].
    split; [done|]. split; [done|]. split; [done|].
    split; [|split].
    + rewrite fmap_app. apply NoDup_app.
      split; [apply (sublist_NoDup _ (c_id <$> content s)); [done|apply filter_fmap_sublist]|].
      split; [|apply NoDup_singleton].
      intros x Hx ->%list_elem_of_singleton.
      assert (next_rowid (c_id <$> content s) ∈ c_id <$> content s) as Hin.
      { eapply elem_of_sublist; [exact Hx|apply filter_fmap_sublist]. }
      apply (proj1 (next_rowid_fresh _)) in Hin. lia.
    + rewrite omap_app. apply NoDup_app.
      split; [apply (sublist_NoDup _ (omap c_file_id (content s))); [done|apply omap_sublist, sublist_filter]|].
      split.
      * intros x (r & [Hr Hin]%list_elem_of_filter & Hx)%list_elem_of_omap Hx'.
        simpl in Hx'. destruct (cd_file_id d) as [f|]; [|by apply elem_of_nil in Hx'].
        apply list_elem_of_singleton in Hx' as ->. apply Hr. by split.
      * simpl. destruct (cd_file_id d); [apply NoDup_singleton|apply NoDup_nil_2].
    + rewrite fmap_app, !Forall_app. repeat split; try done.
      * rewrite Forall_forall in Hcpos. apply Forall_forall. intros x Hx.
        apply Hcpos. eapply elem_of_sublist; [exact Hx|apply filter_fmap_sublist].
      * apply Forall_singleton. simpl. by apply next_rowid_fresh.
  - unfold schema. cbn [files annotations content].
    assert (forall g : FileRow -> Z,
              (forall r, g (if decide (f_id r = i) then set_processed r else r) = g r) ->
              g <$> ((fun r => if decide (f_id r = i) then set_processed r else r) <$> files s)
              = g <$> files s) as Hmap.
    { intros g Hg. rewrite <- list_fmap_compose. apply list_fmap_ext. intros ? r _. apply Hg. }
    pose proof (run_unique_paths s (MarkAsProcessed i) Hp) as Hp'.
    rewrite Hmap by (intros r; by case_decide).
    by rewrite !Forall_app.
Qed.

(** X1.  Every store the program can build satisfies its schema: rowids are
    unique in each table and start at 1, no two file rows share a path, and
    no two content rows share a file id. *)
Theorem reachable_schema (s : t) : reachable s -> schema s.
Proof.
  induction 1 as [|s o _ IH]; [|by apply run_schema].
  unfold schema. simpl. repeat split; try apply NoDup_nil_2. constructor.
Qed.

(** The empty store, then one file. *)
Lemma reachable_schema_witness :
  schema (run empty (AddFile {| fd_filename := Some "a.bin"; fd_full_path := Some "x/a.bin";
                                fd_file_type := None; fd_size := None;
                                fd_modified_date := None; fd_category := None;
                                fd_processed := Some false |})).
Proof. apply reachable_schema. apply reachable_run. apply reachable_empty. Defined.

Lemma set_processed_id r : f_processed r = Some true -> set_processed r = r.
Proof. destruct r. simpl. by intros ->. Qed.

Lemma run_keeps_processed s o r :
  r ∈ files s -> f_processed r = Some true -> r ∈ files (run s o).
Proof.
  intros Hin Hp. destruct o as [d|d|d|i]; simpl.
  - destruct (add_file s d) as [[i s']|] eqn:H; [|done].
    apply add_file_store in H as ->. unfold insert_file_row.
    destruct (fd_filename d), (fd_full_path d) as [p|]; try done.
    destruct (select_file s (Some p)); [done|]. cbn [snd files].
    apply elem_of_app. by left.
  - unfold add_annotation. case_decide; [|done].
    by destruct (select_annotation s (ad_file_id d) (ad_source_index d)).
  - destruct (add_content s d) as [[[i s'] d']|] eqn:H; [|done].
    by rewrite (proj1 (add_content_tables _ _ _ _ _ H)).
  - apply list_elem_of_fmap. exists r. split; [|done].
    case_decide; [by rewrite set_processed_id|done].
Qed.

(** X2.  The processed flag is never reverted: a file row that is processed
    stays in the files table, unchanged, through any sequence of writing
    calls. *)
Theorem processed_never_reverted (s : t) (ops : list op) (r : FileRow) :
  r ∈ files s -> f_processed r = Some true -> r ∈ files (run_all s ops).
Proof.
  unfold run_all. revert s. induction ops as [|o ops IH]; intros s Hin Hp; [done|].
  simpl. apply IH; [|done]. by apply run_keeps_processed.
Qed.

(** A file is added and marked; a second [add_file] under its path, with
    the flag off, and a mark of another id leave its row as it is. *)
Lemma processed_never_reverted_witness :
  let d := {| fd_filename := Some "a.bin"; fd_full_path := Some "x/a.bin";
              fd_file_type := None; fd_size := None; fd_modified_date := None;
              fd_category := None; fd_processed := Some false |} in
  let s := run_all empty [AddFile d; MarkAsProcessed 1] in
  let r := {| f_id := 1; f_filename := "a.bin"; f_full_path := "x/a.bin";
              f_file_type := None; f_size := None; f_modified_date := None;
              f_category := None; f_processed := Some true |} in
  r ∈ files (run_all s [AddFile d; MarkAsProcessed 2]).
Proof.
  intros d s r. apply processed_never_reverted.
  - apply list_elem_of_singleton. reflexivity.
  - reflexivity.
Defined.



(** X5.  After [add_file] returns for a record with path [p],
    [get_file_by_path] finds under [p] a row with the returned id; every
    lookup that found a row before finds the same row, and the lookups of
    other paths are as before. *)
Theorem add_file_then_lookup (s s' : t) (d : FileData) (i : Z) (p : string) :
  add_file s d = Normal (i, s') ->
  fd_full_path d = Some p ->
  (exists r, get_file_by_path s' p = Some r /\ f_id r = i /\ f_full_path r = p) /\
  (forall q r, get_file_by_path s q = Some r -> get_file_by_path s' q = Some r) /\
  (forall q, q <> p -> get_file_by_path s' q = get_file_by_path s q).
Proof.
  intros Hadd Hp. unfold get_file_by_path.
  pose proof Hadd as Hs'. apply add_file_store in Hs'. subst s'.
  revert Hadd. unfold add_file, insert_or_ignore_file. case_decide; [|done].
  unfold insert_file_row. rewrite Hp.
  destruct (fd_filename d) as [fn|]; cbn [snd].
  - destruct (select_file s (Some p)) as [r0|] eqn:Hsel; cbn [snd].
    + rewrite Hsel. intros [= <-]. split; [|done].
      exists r0. by destruct (select_file_elem _ _ _ Hsel).
    + intros [= <-]. split; [|split].
      * exists (file_row (next_rowid (f_id <$> files s)) fn p d). split; [|done].
        unfold select_file in *. cbn [files].
        rewrite (find_app_none (fun r => f_full_path r = p)) by done.
        simpl. by rewrite bool_decide_eq_true_2.
      * intros q r. by eapply select_file_extend.
      * intros q Hq. unfold select_file. cbn [files].
        destruct (List.find (fun r => bool_decide (f_full_path r = q)) (files s)) as [r|] eqn:Hq'.
        -- by apply (find_app_some (fun r => f_full_path r = q)).
        -- rewrite (find_app_none (fun r => f_full_path r = q)) by done.
           simpl. by rewrite bool_decide_eq_false_2.
  - destruct (select_file s (Some p)) as [r0|] eqn:Hsel; [|done].
    intros [= <-]. split; [|done].
    exists r0. by destruct (select_file_elem _ _ _ Hsel).
Qed.

(** On the empty store, the path [x/a.bin]. *)
Lemma add_file_then_lookup_witness :
  let d := {| fd_filename := Some "a.bin"; fd_full_path := Some "x/a.bin";
              fd_file_type := None; fd_size := None; fd_modified_date := None;
              fd_category := None; fd_processed := Some false |} in
  exists r, get_file_by_path (run empty (AddFile d)) "x/a.bin" = Some r /\ f_id r = 1%Z.
Proof.
  intros d.
  destruct (add_file_then_lookup empty (run empty (AddFile d)) d 1 "x/a.bin" eq_refl eq_refl)
    as [(r & Hr & Hid & _) _].
  exists r. split; [exact Hr|exact Hid].
Defined.

End StoreExtra.

(** ** The writer: counts, dry runs and what a run leaves in the store *)
Module WriterExtra.
Import Store StoreSpec StoreProps Pipeline PipelineSpec PipelineProps WriterSpec CheckDb.

Lemma add_file_shape s d fn p :
  fd_filename d = Some fn ->
  fd_full_path d = Some p ->
  fits (fd_size d) ->
  exists i s1 r,
    add_file s d = Normal (i, s1) /\
    select_file s1 (Some p) = Some r /\ f_id r = i /\
    (files s1 = files s \/ files s1 = files s ++ [r]) /\
    annotations s1 = annotations s /\
    content s1 = content s.
Proof.
  intros Hfn Hp Hfit. unfold add_file. rewrite insert_or_ignore_fits by done.
  unfold insert_file_row. rewrite Hfn, Hp.
  destruct (select_file s (Some p)) as [r0|] eqn:Hsel.
  - rewrite Hsel. exists (f_id r0), s, r0. repeat split; try done. by left.
  - exists (next_rowid (f_id <$> files s)).
    eexists. exists (file_row (next_rowid (f_id <$> files s)) fn p d).
    split; [reflexivity|]. split.
    + unfold select_file in *. cbn [files].
      rewrite (find_app_none (fun r => f_full_path r = p)) by done.
      simpl. by rewrite bool_decide_eq_true_2.
    + split; [done|]. split; [by right|]. done.
Qed.

Lemma add_annotation_tables s d j s2 :
  add_annotation s d = Normal (j, s2) -> files s2 = files s /\ content s2 = content s.
Proof.
  unfold add_annotation. case_decide; [|done].
  destruct (select_annotation s (ad_file_id d) (ad_source_index d)); by intros [= _ <-].
Qed.

Lemma has_content_add_content s d k s3 d' :
  add_content s d = Normal (k, s3, d') ->
  (forall i, cd_file_id d = Some i -> has_content s3 i) /\
  (forall j, has_content s j -> has_content s3 j).
Proof.
  unfold add_content. case_decide; [|done]. destruct (cd_metadata d) as [m|]; [|done]. cbv zeta.
  intros [= _ <- _]. unfold has_content. cbn [content]. split.
  - intros i Hi. apply Exists_app. right. apply Exists_cons_hd. done.
  - intros j [c [Hc Hj]]%Exists_exists. apply Exists_app.
    destruct (decide (cd_file_id d = Some j)) as [Hd|Hd].
    + right. by apply Exists_cons_hd.
    + left. apply Exists_exists. exists c. split; [|done].
      apply list_elem_of_filter. split; [|done]. intros [_ Heq]. congruence.
Qed.

(** One turn of the writer, read at the store. *)
Lemma save_item_store st pe :
  let st' := save_item st pe in
  st'.2 = S st.2 /\
  (if dry_run st.1
   then db st'.1 = db st.1 /\
        stats st'.1 = Stats.add_entry (stats st.1) (Stats.of_entry pe.2)
   else stats st'.1 = stats st.1 /\ stored (db st'.1) pe) /\
  (forall j, has_content (db st.1) j -> has_content (db st'.1) j) /\
  (complete (db st.1) -> complete (db st'.1)).
Proof.
  destruct st as [self n], pe as [path e]. unfold save_item, save_entry. cbn [fst snd].
  destruct (dry_run self) eqn:Hdry; [done|].
  destruct (add_file_shape (db self) (file_data path e) _ _ eq_refl eq_refl fits_zero)
    as (i & s1 & r & -> & Hsel & Hid & Hfiles & Hann1 & Hcon1).
  assert (bindable s1 (Some i)) as Hb1 by (subst i; by eapply bindable_found).
  destruct (add_annotation_returns s1 (annotation_data i e) _ _ eq_refl eq_refl Hb1)
    as (j & s2 & Hadd & Hfiles2 & [ax Hax] & [a Ha] & _).
  rewrite Hadd. destruct (add_annotation_tables _ _ _ _ Hadd) as [_ Hcon2].
  assert (bindable s2 (Some i)) as Hb2 by (by eapply bindable_files).
  destruct (add_content s2 (content_data i e)) as [[[k s3] c]|] eqn:Hcontent;
    [|by rewrite (add_content_bound s2 (content_data i e) _ Hb2 eq_refl) in Hcontent].
  destruct (add_content_tables _ _ _ _ _ Hcontent) as [Hfiles3 Hann3].
  destruct (has_content_add_content _ _ _ _ _ Hcontent) as [Hown Hkeep].
  cbn [fst snd db stats with_db].
  apply select_annotation_elem in Ha as (Hain & Haf & Has & _).
  assert (forall x, has_content (db self) x -> has_content s3 x) as Hc.
  { intros x Hx. apply Hkeep. unfold has_content in *. by rewrite Hcon2, Hcon1. }
  assert (forall x, has_annotation (db self) x -> has_annotation s3 x) as Hmono.
  { unfold has_annotation. intros x Hx. rewrite Hann3, Hax, Hann1.
    apply Exists_app. by left. }
  split; [done|]. split; [|split; [done|]].
  - split; [done|]. exists r, a. cbn [fst snd]. split.
    + unfold get_file_by_path. eapply (select_file_extend s1 s3 []); [|exact Hsel].
      by rewrite Hfiles3, Hfiles2, app_nil_r.
    + split; [by rewrite Hann3|]. split; [by rewrite Hid|]. split; [done|].
      rewrite Hid. by apply Hown.
  - unfold complete. intros Hall. rewrite Hfiles3, Hfiles2.
    assert (has_annotation s3 i /\ has_content s3 i) as Hi.
    { split; [|by apply Hown]. unfold has_annotation. rewrite Hann3.
      apply Exists_exists. by exists a. }
    assert (Forall (fun f => has_annotation s3 (f_id f) /\ has_content s3 (f_id f))
                   (files (db self))) as Hold.
    { eapply Forall_impl; [exact Hall|]. intros f [? ?]. split; auto. }
    destruct Hfiles as [->| ->]; [done|].
    apply Forall_app. split; [done|]. apply Forall_singleton. by rewrite Hid.
Qed.

(** A run of the writer, read at the store. *)
Lemma run_store l st :
  let st' := foldl save_item st l in
  st'.2 = st.2 + length l /\
  (if dry_run st.1
   then db st'.1 = db st.1 /\
        Stats.total_entries (stats st'.1) = Stats.total_entries (stats st.1) + length l /\
        Stats.errors (stats st'.1) = Stats.errors (stats st.1)
   else stats st'.1 = stats st.1 /\ Forall (stored (db st'.1)) l) /\
  (forall j, has_content (db st.1) j -> has_content (db st'.1) j) /\
  (complete (db st.1) -> complete (db st'.1)).
Proof.
  revert st. induction l as [|pe l IH]; intros st; cbn [foldl length].
  - split; [lia|]. split; [|done]. destruct (dry_run st.1); [split; [done|split; [lia|done]]|done].
  - destruct (save_item_store st pe) as (Hn & Hmode & Hc & Hcomp).
    destruct (save_item_spec st pe) as (Hdry & _).
    destruct (IH (save_item st pe)) as (Hn' & Hmode' & Hc' & Hcomp').
    split; [lia|]. split; [|split; [by auto|by auto]].
    rewrite Hdry in Hmode'. destruct (dry_run st.1) eqn:Hd.
    + destruct Hmode as [Hdb Hstats]. destruct Hmode' as (Hdb' & Htot & Herr).
      split; [congruence|]. rewrite Htot, Herr, Hstats. split; [simpl; lia|done].
    + destruct Hmode as [Hstats Hst]. destruct Hmode' as [Hstats' Hall].
      split; [congruence|]. constructor; [|done].
      destruct (run_extends l (save_item st pe)) as (_ & [fx Hf] & [ax Ha] & _).
      destruct Hst as (r & a & Hr & Hain & Haf & Has & Hcon).
      exists r, a. split; [by eapply select_file_extend|].
      split; [rewrite Ha; apply elem_of_app; by left|]. split; [done|]. split; [done|].
      by apply Hc'.
Qed.

(** X6.  [save_entries_to_db] returns the number of entries of the batch.
    In a dry run it leaves the store as it is and counts every entry in the
    statistics, recording no error; otherwise it leaves the statistics as
    they are. *)
Theorem save_entries_counts (self : IndexProcessor)
    (entries_batch : list (string * list IndexParser.Entry)) :
  let n := length (flat entries_batch) in
  let self' := (save_entries_to_db self entries_batch).1 in
  (save_entries_to_db self entries_batch).2 = n /\
  dry_run self' = dry_run self /\
  (if dry_run self
   then db self' = db self /\
        Stats.total_entries (stats self') = Stats.total_entries (stats self) + n /\
        Stats.errors (stats self') = Stats.errors (stats self)
   else stats self' = stats self).
Proof.
  intros n self'. subst n self'. rewrite save_entries_flat.
  destruct (run_store (flat entries_batch) (self, 0)) as (Hn & Hmode & _).
  destruct (run_extends (flat entries_batch) (self, 0)) as (Hdry & _).
  cbn [fst snd] in *. split; [done|]. split; [done|].
  destruct (dry_run self); [done|]. by destruct Hmode.
Qed.

(** X7.  After a writing run every entry of the batch is in the store:
    [get_file_by_path] finds its file row under the entry's path, an
    annotation row names that file and the entry's index file, and a content
    row names that file. *)
Theorem saved_entries_are_stored (self : IndexProcessor)
    (entries_batch : list (string * list IndexParser.Entry)) :
  dry_run self = false ->
  Forall (stored (db (save_entries_to_db self entries_batch).1)) (flat entries_batch).
Proof.
  intros Hdry. rewrite save_entries_flat.
  destruct (run_store (flat entries_batch) (self, 0)) as (_ & Hmode & _).
  cbn [fst] in Hmode. rewrite Hdry in Hmode. by destruct Hmode.
Qed.

(** X8.  The writer keeps the store complete: when every file row has an
    annotation row and a content row, as in the empty store, the same holds
    after a run, and the two integrity checks of [check_db] count 0. *)
Theorem writer_keeps_store_complete (self : IndexProcessor)
    (entries_batch : list (string * list IndexParser.Entry)) :
  complete (db self) ->
  let s' := db (save_entries_to_db self entries_batch).1 in
  complete s' /\ files_without_annotations s' = 0 /\ files_without_content s' = 0.
Proof.
  intros Hc s'. subst s'. rewrite save_entries_flat.
  destruct (run_store (flat entries_batch) (self, 0)) as (_ & _ & _ & Hcomp).
  cbn [fst] in Hcomp. specialize (Hcomp Hc). split; [done|].
  unfold complete, has_annotation, has_content in Hcomp. rewrite Forall_forall in Hcomp.
  unfold files_without_annotations, files_without_content.
  split; apply length_zero_iff_nil, (filter_none _), Forall_forall; intros f Hf Hall;
    destruct (Hcomp f Hf) as [[a [Ha Hfa]]%Exists_exists [c [Hcin Hfc]]%Exists_exists];
    rewrite Forall_forall in Hall.
  - by apply (Hall a).
  - by apply (Hall c).
Qed.

(** A writing run over one entry, from the empty store. *)
Lemma saved_entries_are_stored_witness :
  let e := {| IndexParser.filename := "a.bin"; IndexParser.description := "d";
              IndexParser.source_index := "x/exploits/index_.txt";
              IndexParser.metadata :=
                {| IndexParser.tags := ["x"]; IndexParser.systems := [];
                   IndexParser.hashes := []; IndexParser.author := None;
                   IndexParser.category := "exploit" |} |} in
  let self := {| dry_run := false; db := Store.empty; stats := Stats.new |} in
  Forall (stored (db (save_entries_to_db self [("x/exploits/index_.txt", [e])]).1))
         [("x/exploits/index_.txt", e)].
Proof.
  intros e self.
  apply (saved_entries_are_stored self [("x/exploits/index_.txt", [e])]). reflexivity.
Defined.

(** The empty store has no file row, so it is complete. *)
Lemma writer_keeps_store_complete_witness :
  let e := {| IndexParser.filename := "a.bin"; IndexParser.description := "d";
              IndexParser.source_index := "x/exploits/index_.txt";
              IndexParser.metadata :=
                {| IndexParser.tags := []; IndexParser.systems := [];
                   IndexParser.hashes := []; IndexParser.author := None;
                   IndexParser.category := "exploit" |} |} in
  let self := {| dry_run := false; db := Store.empty; stats := Stats.new |} in
  let s' := db (save_entries_to_db self [("x/exploits/index_.txt", [e; e])]).1 in
  complete s' /\ files_without_annotations s' = 0 /\ files_without_content s' = 0.
Proof.
  intros e self.
  apply (writer_keeps_store_complete self [("x/exploits/index_.txt", [e; e])]).
  apply Forall_nil_2.
Defined.

End WriterExtra.

(** ** The statistics: tags, systems and the sums of the counters *)
Module TallyExtra.
Import Stats StatsSpec StatsProps TallySpec.

Lemma incr_all_count (l : list string) (c : Counter) (key : string) :
  count (incr_all l c) key =
  count c key + if decide (key = "") then 0 else occurrences key l.
Proof.
  unfold incr_all, occurrences. revert c.
  induction l as [|x l IH]; intros c; cbn [foldl].
  - simpl. case_decide; lia.
  - rewrite IH. destruct (decide (x = "")) as [->|Hx].
    + destruct (decide (key = "")) as [->|Hk]; [done|].
      by rewrite filter_cons_False by done.
    + rewrite count_incr. destruct (decide (key = "")) as [->|Hk].
      * rewrite decide_False by done. lia.
      * destruct (decide (key = x)) as [->|Hne].
        -- rewrite filter_cons_True by done. simpl. lia.
        -- rewrite filter_cons_False by done. lia.
Qed.

(** X9.  [add_entry] counts every occurrence of a non-empty tag and of a
    non-empty system of the entry, once each, in the bucket of that name;
    empty ones are skipped, and an entry without the key changes nothing. *)
Theorem add_entry_counts_tags (self : StatsAnalyzer) (entry : EntryDict) (key : string) :
  let listed (l : option (list string)) : nat :=
    if decide (key = "") then 0 else occurrences key (default [] l) in
  count (tags (add_entry self entry)) key =
    count (tags self) key + listed (e_metadata entry ≫= m_tags) /\
  count (systems (add_entry self entry)) key =
    count (systems self) key + listed (e_metadata entry ≫= m_systems).
Proof.
  intros listed. subst listed. unfold add_entry. cbn [tags systems]. split.
  - destruct (e_metadata entry ≫= m_tags) as [l|]; simpl.
    + apply incr_all_count.
    + unfold occurrences. simpl. case_decide; lia.
  - destruct (e_metadata entry ≫= m_systems) as [l|]; simpl.
    + apply incr_all_count.
    + unfold occurrences. simpl. case_decide; lia.
Qed.

Lemma total_insert_fresh (c : Counter) k v :
  c !! k = None -> total (<[k := v]> c) = v + total c.
Proof.
  intros Hk. unfold total. rewrite map_fold_insert_L; [done| |done].
  intros. lia.
Qed.

Lemma total_incr (c : Counter) k : total (incr k c) = S (total c).
Proof.
  unfold incr, count. destruct (c !! k) as [v|] eqn:Hk; simpl.
  - rewrite <- (insert_delete_eq c k (S v)).
    rewrite total_insert_fresh by apply lookup_delete_eq.
    rewrite <- (insert_id c k v Hk) at 2. rewrite <- insert_delete_eq.
    rewrite total_insert_fresh by apply lookup_delete_eq. lia.
  - by rewrite total_insert_fresh.
Qed.

(** X10.  Adding entries of the parser keeps the statistics consistent: the
    category counter, the file-type counter and the author counter each add
    up to [total_entries], as they do in a new analyzer. *)
Theorem add_entry_keeps_sums (self : StatsAnalyzer) (entries : list IndexParser.Entry) :
  consistent self ->
  consistent (foldl add_entry self (of_entry <$> entries)) /\
  total_entries (foldl add_entry self (of_entry <$> entries)) =
    total_entries self + length entries.
Proof.
  revert self. induction entries as [|e entries IH]; intros self Hc; cbn [foldl fmap list_fmap].
  - split; [done|]. simpl. lia.
  - destruct (IH (add_entry self (of_entry e))) as [Hc' Hn].
    + destruct Hc as (H1 & H2 & H3). unfold consistent, add_entry, of_entry.
      cbn [categories file_types authors total_entries e_metadata e_filename
           mbind option_bind m_category m_author].
      rewrite !total_incr. by rewrite H1, H2, H3.
    + split; [done|]. rewrite Hn. simpl. lia.
Qed.

(** A new analyzer, and the entry [README]. *)
Lemma add_entry_keeps_sums_witness :
  let e := {| IndexParser.filename := "README"; IndexParser.description := "d";
              IndexParser.source_index := "data/util/index_.txt";
              IndexParser.metadata :=
                {| IndexParser.tags := []; IndexParser.systems := [];
                   IndexParser.hashes := []; IndexParser.author := None;
                   IndexParser.category := "tool" |} |} in
  consistent (foldl add_entry new (of_entry <$> [e; e])) /\
  total_entries (foldl add_entry new (of_entry <$> [e; e])) = 2.
Proof.
  intros e. apply (add_entry_keeps_sums new [e; e]).
  repeat split; reflexivity.
Defined.

End TallyExtra.

(** ** The coverage analyzer: order of the inputs, and the category tally *)
Module CoverageExtra.
Import Coverage CoverageSpec CoverageProps.

Lemma manifest_paths_same (m m' : list string) :
  (forall x, x ∈ m <-> x ∈ m') -> manifest_paths m = manifest_paths m'.
Proof.
  intros Hsame. unfold manifest_paths. apply set_eq. intros x.
  rewrite !elem_of_list_to_set, !list_elem_of_filter, !list_elem_of_fmap.
  split; intros [Hx (y & -> & Hy)]; (split; [done|]); exists y; (split; [done|]);
    by apply Hsame.
Qed.

Lemma named_files_same (l l' : list (string * string)) :
  (forall x, x ∈ l <-> x ∈ l') -> named_files l = named_files l'.
Proof.
  intros Hsame. unfold named_files. apply set_eq. intros x.
  rewrite !elem_of_list_to_set, !list_elem_of_bind.
  split; intros (y & Hx & Hy); exists y; (split; [done|]); by apply Hsame.
Qed.

Lemma analyze_normal manifest index_files :
  exists a,
    analyze manifest index_files = Normal (generate_report a) /\
    all_files a = manifest_paths manifest /\
    indexed_files a = named_files index_files.
Proof.
  unfold analyze.
  destruct (load_all_files_spec new manifest) as [Hall Hidx].
  destruct (process_all_normal (load_all_files new manifest) index_files)
    as (a & -> & Hall' & Hidx').
  exists a. split; [done|]. split.
  - rewrite Hall', Hall. cbn [new all_files]. set_solver.
  - rewrite Hidx', Hidx. cbn [new indexed_files]. set_solver.
Qed.

(** X11.  The summary of the coverage report does not depend on the order of
    the manifest lines or of the index files, nor on their repetition: two
    analyses whose manifests have the same lines and whose index files are
    the same give the same summary. *)
Theorem analyze_order_independent (manifest manifest' : list string)
    (index_files index_files' : list (string * string)) :
  (forall x, x ∈ manifest <-> x ∈ manifest') ->
  (forall f, f ∈ index_files <-> f ∈ index_files') ->
  analyze manifest index_files = analyze manifest' index_files'.
Proof.
  intros Hm Hi.
  destruct (analyze_normal manifest index_files) as (a & -> & Ha & Hai).
  destruct (analyze_normal manifest' index_files') as (a' & -> & Ha' & Hai').
  unfold generate_report. rewrite Ha, Hai, Ha', Hai'.
  by rewrite (manifest_paths_same _ _ Hm), (named_files_same _ _ Hi).
Qed.

(** Two manifest lines and two index files, swapped and repeated. *)
Lemma analyze_order_independent_witness :
  analyze ["a.bin"; "b.bin"]
          [("data/exploits/index_.txt", "File Name: a.bin"); ("data/util/index_.txt", "File Name: c")] =
  analyze ["b.bin"; "a.bin"; "b.bin"]
          [("data/util/index_.txt", "File Name: c"); ("data/exploits/index_.txt", "File Name: a.bin")].
Proof.
  apply analyze_order_independent.
  - intros x. rewrite !elem_of_cons, !elem_of_nil. tauto.
  - intros f. rewrite !elem_of_cons, !elem_of_nil. tauto.
Defined.

(** X12.  [process_index_file] never raises.  It adds to the tally of the
    file's category, and of no other, the number of blocks that name a
    file; it adds the names to the indexed files and leaves the manifest's
    paths alone.  So a name that several blocks repeat is tallied each time
    and indexed once. *)
Theorem process_index_file_tally (self : CoverageAnalyzer) (index_path content : string) :
  let names := omap block_name (Text.split "///" content) in
  exists a,
    process_index_file self index_path content = Normal a /\
    all_files a = all_files self /\
    indexed_files a = indexed_files self ∪ list_to_set names /\
    (forall key,
       Stats.count (categories a) key =
       Stats.count (categories self) key +
       if decide (key = _determine_category index_path) then length names else 0).
Proof.
  intros names. subst names. unfold process_index_file.
  generalize (_determine_category index_path) as cat. intros cat.
  generalize (Text.split "///" content) as blocks. intros blocks. revert self.
  induction blocks as [|b blocks IH]; intros self.
  - exists self. split; [done|]. split; [done|]. split; [simpl; set_solver|].
    intros key. simpl. case_decide; lia.
  - cbn [process_entries]. rewrite process_entry_normal. cbn [mbind outcome_bind omap list_omap].
    destruct (block_name b) as [f|] eqn:Hname.
    + destruct (IH {| all_files := all_files self; indexed_files := indexed_files self ∪ {[f]};
                      categories := Stats.incr cat (categories self) |})
        as (a & -> & Hall & Hidx & Hcount).
      exists a. split; [done|]. split; [done|]. split.
      * rewrite Hidx. cbn [indexed_files]. set_solver.
      * intros key. rewrite Hcount. cbn [categories]. rewrite StatsProps.count_incr.
        case_decide; simpl; lia.
    + destruct (IH self) as (a & -> & Hall & Hidx & Hcount).
      exists a. done.
Qed.

End CoverageExtra.

(** ** The parser: what every returned entry satisfies *)
Module EntryExtra.
Import IndexParser ParserSpec ParserProps EntrySpec.

Lemma comma_list_nonempty text : Forall nonempty (comma_list text).
Proof.
  unfold comma_list. apply Forall_forall. by intros x [? _]%list_elem_of_filter.
Qed.

Lemma dict_set_keys key value d :
  (dict_set key value d).*1 = if decide (key ∈ d.*1) then d.*1 else d.*1 ++ [key].
Proof.
  induction d as [|[k v] d IH]; cbn [dict_set fmap list_fmap fst].
  - destruct (decide (key ∈ [])) as [Hin|_]; [|done]. by apply elem_of_nil in Hin.
  - destruct (decide (k = key)) as [->|Hne]; cbn [fmap list_fmap fst].
    + destruct (decide (key ∈ key :: d.*1)) as [_|Hn]; [done|]. destruct Hn. left.
    + change (list_fmap _ _ fst ?l) with (l.*1). rewrite IH.
      destruct (decide (key ∈ d.*1)) as [Hin|Hin];
        destruct (decide (key ∈ k :: d.*1)) as [Hin'|Hin']; try done.
      * destruct Hin'. by right.
      * apply elem_of_cons in Hin' as [?|?]; congruence.
Qed.

Lemma match_hash_type line ht hv :
  Text.match_hash line = Some (ht, hv) -> ht = "MD5" \/ ht = "SHA-256".
Proof.
  unfold Text.match_hash.
  destruct (Text.removeprefix "MD5" line) as [rest|].
  - destruct (Text.match_hash_tail rest); simpl; [|done]. intros [= <- _]. by left.
  - destruct (Text.removeprefix "SHA-256" line) as [rest|]; [|done].
    destruct (Text.match_hash_tail rest); simpl; [|done]. intros [= <- _]. by right.
Qed.

Lemma set_hash_well_formed ht hv m :
  ht = "MD5" \/ ht = "SHA-256" -> well_formed m -> well_formed (set_hash ht hv m).
Proof.
  intros Hht (Ht & Hs & Hnd & Hk). unfold well_formed, set_hash. cbn [tags systems hashes].
  split; [done|]. split; [done|]. rewrite dict_set_keys. case_decide; [done|].
  split.
  - apply NoDup_app. split; [done|]. split; [|apply NoDup_singleton].
    by intros x Hx ->%list_elem_of_singleton.
  - apply Forall_app. split; [done|]. by apply Forall_singleton.
Qed.

(** A line keeps the draft sound. *)
Lemma process_line_sound src cur ind raw cur' ind' :
  process_line (cur, ind) raw = Normal (cur', ind') -> sound src cur -> sound src cur'.
Proof.
  unfold process_line. intros Hrun (Hname & Hsrc & Hwf). revert Hrun.
  case_decide; [by intros [= <- _]|].
  destruct (Text.match_file_name (Text.strip raw)) as [g|].
  { case_decide as Hg; intros [= <- _]; [|done].
    split; [|done]. simpl. by intros f [= <-]. }
  case_decide; [by intros [= <- _]|].
  destruct (Text.startswith "tags |" (Text.strip raw)).
  { destruct (py_index (Text.split "|" (Text.strip raw)) 1) as [t|]; [|done].
    cbn [mbind outcome_bind]. intros [= <- _]. split; [done|]. split; [done|].
    destruct Hwf as (_ & Hs & Hh). split; [apply comma_list_nonempty|done]. }
  destruct (Text.startswith "systems |" (Text.strip raw)).
  { destruct (py_index (Text.split "|" (Text.strip raw)) 1) as [t|]; [|done].
    cbn [mbind outcome_bind]. intros [= <- _]. split; [done|]. split; [done|].
    destruct Hwf as (Ht & _ & Hh). split; [done|]. split; [apply comma_list_nonempty|done]. }
  destruct (Text.match_hash (Text.strip raw)) as [[ht hv]|] eqn:Hhash.
  { intros [= <- _]. split; [done|]. split; [done|].
    apply set_hash_well_formed; [|done]. by eapply match_hash_type. }
  destruct (Text.match_author (Text.strip raw)); [by intros [= <- _]|].
  destruct ind; by intros [= <- _].
Qed.

Lemma process_lines_sound src lines cur ind cur' ind' :
  process_lines (cur, ind) lines = Normal (cur', ind') -> sound src cur -> sound src cur'.
Proof.
  revert cur ind. induction lines as [|raw lines IH]; intros cur ind; cbn [process_lines].
  - by intros [= <- _].
  - destruct (process_line (cur, ind) raw) as [[cur1 ind1]|] eqn:Hline; [|done].
    cbn [mbind outcome_bind]. intros Hrest Hs.
    eapply IH; [exact Hrest|]. by eapply process_line_sound.
Qed.

Lemma new_entry_sound self :
  sound (from_option PurePath.to_string "None" (source_path self)) (new_entry self).
Proof.
  split; [done|]. split; [done|]. unfold well_formed. simpl. repeat split; constructor.
Qed.

Lemma final_description_nonempty lines : final_description lines <> "".
Proof. unfold final_description. by case_decide. Qed.

Lemma process_block_sound self file_path st b st' errs :
  let src := from_option PurePath.to_string "None" (source_path self) in
  process_block self file_path st b = (Normal st', errs) ->
  Forall (sound_entry src) (results st) -> Forall (sound_entry src) (results st').
Proof.
  intros src. unfold process_block. case_decide; [by intros [= <- _]|].
  destruct (process_lines _ _) as [[cur ind]|] eqn:Hlines; [|done].
  apply (process_lines_sound src) in Hlines as (Hname & Hsrc & Hwf); [|apply new_entry_sound].
  unfold finish. destruct (d_filename cur) as [f|] eqn:Hf; [|by intros [= <- _]].
  case_decide; intros [= <- _]; [done|]. intros Hall. cbn [results].
  apply Forall_app. split; [done|]. apply Forall_singleton.
  destruct (Hname f eq_refl) as [? ?].
  split; [done|]. split; [done|]. split; [apply final_description_nonempty|]. by split.
Qed.

Lemma process_blocks_sound self file_path blocks st st' errs :
  let src := from_option PurePath.to_string "None" (source_path self) in
  process_blocks self file_path st blocks = (Normal st', errs) ->
  Forall (sound_entry src) (results st) -> Forall (sound_entry src) (results st').
Proof.
  intros src. revert st. induction blocks as [|b blocks IH]; intros st; cbn [process_blocks].
  - by intros [= <- _].
  - destruct (process_block self file_path st b) as [[st1|] errs1] eqn:Hb; [|done].
    intros Hrest Hall. eapply IH; [exact Hrest|]. by eapply process_block_sound.
Qed.

Lemma parse_file_sound self file_path rd :
  Forall (sound_entry (PurePath.to_string (PurePath.of_string file_path)))
         (parse_file self file_path rd).1.
Proof.
  destruct rd as [content|exc]; [|constructor].
  rewrite parse_file_readable.
  destruct (process_blocks _ _ _ _) as [[st|] errs] eqn:Hrun; [|constructor].
  cbn [fst]. apply process_blocks_sound in Hrun; [exact Hrun|]. constructor.
Qed.

Lemma to_string_nonempty p : PurePath.to_string p <> "".
Proof. unfold PurePath.to_string. by case_decide. Qed.

(** X13.  Every entry that [parse_file] returns passes [validate_entry]: its
    file name, description and source index are not empty.  Its file name is
    not the placeholder [:], and its source index is the path of the index
    file as [pathlib] writes it. *)
Theorem parsed_entries_are_valid (self : Parser) (file_path : string) (rd : read_result) :
  Forall (fun e => Pipeline.validate_entry e = true /\ filename e <> ":" /\
                   source_index e = PurePath.to_string (PurePath.of_string file_path))
         (parse_file self file_path rd).1.
Proof.
  eapply Forall_impl; [apply parse_file_sound|].
  intros e (Hf & Hc & Hd & Hsrc & _). split; [|done].
  unfold Pipeline.validate_entry. apply bool_decide_eq_true.
  rewrite Hsrc. split; [done|]. split; [done|]. apply to_string_nonempty.
Qed.

(** X14.  The metadata of every entry that [parse_file] returns is well
    formed: no tag and no system is empty, and the hash mapping has only the
    keys [MD5] and [SHA-256], each at most once. *)
Theorem parsed_metadata_well_formed (self : Parser) (file_path : string) (rd : read_result) :
  Forall (fun e => well_formed (metadata e)) (parse_file self file_path rd).1.
Proof.
  eapply Forall_impl; [apply parse_file_sound|]. by intros e (_ & _ & _ & _ & Hwf).
Qed.

End EntryExtra.

(** ** The dataset builder of [src/main.py] *)
Module BuilderExtra.
Import Store StoreSpec StoreProps Builder BuilderSpec.

Lemma file_data_normal root_dir annotation :
  exists d, file_data root_dir annotation = Normal d /\
    fd_filename d = Some (IndexParser.filename annotation) /\
    fd_full_path d =
      Some (PurePath.to_string (PurePath.joinpath root_dir (IndexParser.filename annotation))) /\
    fd_size d = Some 0%Z.
Proof. eexists. split; [reflexivity|]. by repeat split. Qed.

Lemma annotation_data_raises file_id annotation :
  annotation_data file_id annotation = Raised "KeyError".
Proof. reflexivity. Qed.

(** One annotation: the file row is stored and the body raises. *)
Lemma save_annotation_spec root_dir s annotation :
  exists r e s',
    save_annotation root_dir s annotation = (s', Raised e) /\
    get_file_by_path s'
      (PurePath.to_string (PurePath.joinpath root_dir (IndexParser.filename annotation)))
      = Some r /\
    (files s' = files s \/ files s' = files s ++ [r]) /\
    annotations s' = annotations s /\ content s' = content s.
Proof.
  destruct (file_data_normal root_dir annotation) as (d & Hd & Hfn & Hp & Hsize).
  assert (fits (fd_size d)) as Hfit by (rewrite Hsize; apply fits_zero).
  destruct (WriterExtra.add_file_shape s d _ _ Hfn Hp Hfit)
    as (i & s1 & r & Hadd & Hsel & _ & Hfiles & Hann & Hcont).
  exists r, "KeyError", s1. unfold save_annotation.
  rewrite Hd, Hadd, annotation_data_raises. done.
Qed.

Lemma save_annotations_spec root_dir s annotations :
  let s' := (save_annotations root_dir s annotations).1 in
  match annotations with
  | [] => s' = s
  | annotation :: _ =>
      exists r,
        get_file_by_path s'
          (PurePath.to_string (PurePath.joinpath root_dir (IndexParser.filename annotation)))
          = Some r /\
        (files s' = files s \/ files s' = files s ++ [r]) /\
        Store.annotations s' = Store.annotations s /\ content s' = content s
  end.
Proof.
  destruct annotations as [|a rest]; [done|]. cbn [save_annotations].
  destruct (save_annotation_spec root_dir s a) as (r & e & s' & -> & Hsel & Hf & Ha & Hc).
  by exists r.
Qed.

(** X15.  One index file in [process_index_files]: the file row of its first
    entry is stored under the directory of the manifest, and that is all.
    The annotation needs the key [annotation_date], which no entry of the
    parser has, so the body raises before [add_annotation]: no annotation
    and no content row is written, and the entries after the first are not
    reached. *)
Theorem process_index_file_first_entry_only (self : SecurityDatasetBuilder)
    (index_file : string * IndexParser.read_result) :
  let s := db_manager self in
  let s' := db_manager (process_index_file self index_file) in
  match (IndexParser.parse_file (index_parser self) index_file.1 index_file.2).1 with
  | [] => s' = s
  | annotation :: _ =>
      exists r,
        get_file_by_path s' (stored_path self annotation) = Some r /\
        (files s' = files s \/ files s' = files s ++ [r]) /\
        annotations s' = annotations s /\ content s' = content s
  end.
Proof.
  unfold process_index_file.
  destruct (IndexParser.parse_file _ _ _) as [entries parser]. cbn [fst db_manager].
  apply save_annotations_spec.
Qed.

Lemma process_index_file_tables self index_file :
  let s := db_manager self in
  let s' := db_manager (process_index_file self index_file) in
  annotations s' = annotations s /\ content s' = content s /\
  files s `prefix_of` files s' /\
  length (files s') <= S (length (files s)).
Proof.
  unfold process_index_file.
  destruct (IndexParser.parse_file _ _ _) as [entries parser]. cbn [fst db_manager].
  pose proof (save_annotations_spec (PurePath.parent (files_list_path self))
                (db_manager self) entries) as H.
  destruct entries as [|a rest].
  - cbn zeta in H. rewrite H. repeat split; try done. lia.
  - destruct H as (r & _ & [Hf|Hf] & Ha & Hc); rewrite Hf.
    + repeat split; try done. lia.
    + repeat split; try done; [by eexists|]. rewrite length_app. simpl. lia.
Qed.

(** X16.  A run of [process_index_files] writes no annotation and no content
    row.  The file rows already there stay, in their order, and at most one
    row is added for each index file, however many entries it has. *)
Theorem process_index_files_adds_no_annotation (self : SecurityDatasetBuilder)
    (index_files : list (string * IndexParser.read_result)) :
  let s := db_manager self in
  let s' := db_manager (process_index_files self index_files) in
  annotations s' = annotations s /\ content s' = content s /\
  files s `prefix_of` files s' /\
  length (files s') <= length (files s) + length index_files.
Proof.
  unfold process_index_files. revert self.
  induction index_files as [|f rest IH]; intros self; cbn [foldl].
  - repeat split; try done. simpl. lia.
  - destruct (IH (process_index_file self f)) as (Ha & Hc & Hp & Hl).
    destruct (process_index_file_tables self f) as (Ha1 & Hc1 & Hp1 & Hl1).
    cbn zeta in *. rewrite Ha, Hc. split; [done|]. split; [done|].
    split; [by etrans|]. simpl. lia.
Qed.

Section process_files.
Variable disk : string -> probe.

Lemma row_step_refl r : row_step r r.
Proof. by repeat split. Qed.

Lemma row_step_trans r1 r2 r3 : row_step r1 r2 -> row_step r2 r3 -> row_step r1 r3.
Proof.
  intros (Hi & Hp & Hn & Hu) (Hi' & Hp' & Hn' & Hu').
  split; [congruence|]. split; [congruence|]. split; [congruence|].
  intros H3. pose proof (Hu' H3) as Heq. rewrite Heq in H3. rewrite Heq. by apply Hu.
Qed.

Lemma store_step_refl s : store_step s s.
Proof. split; [|done]. apply Forall2_same_length_lookup. split; [done|].
  intros i x y Hx Hy. assert (x = y) as -> by congruence. apply row_step_refl. Qed.

Lemma store_step_trans s1 s2 s3 : store_step s1 s2 -> store_step s2 s3 -> store_step s1 s3.
Proof.
  intros (Hf & Ha & Hc) (Hf' & Ha' & Hc'). split; [|split; congruence].
  revert Hf Hf'. generalize (files s1) (files s2) (files s3). clear.
  intros l1 l2 l3 H12. revert l3. induction H12; intros l3 H23; inversion H23; subst.
  - constructor.
  - constructor; [by eapply row_step_trans|auto].
Qed.

Lemma fmap_row_step (g : FileRow -> FileRow) l :
  (forall r, row_step r (g r)) -> Forall2 row_step l (g <$> l).
Proof. intros Hg. induction l; constructor; auto. Qed.

(** The row after the UPDATE and [mark_as_processed], for the id of [b]. *)
Lemma handled_row sz mt (b r : FileRow) :
  let g := fun r => if decide (f_id r = f_id b) then set_processed r else r in
  let u := fun r : FileRow =>
             if decide (f_id r = f_id b)
             then {| f_id := f_id r; f_filename := f_filename r;
                     f_full_path := f_full_path r; f_file_type := f_file_type r;
                     f_size := Some sz; f_modified_date := Sql.real_affinity mt;
                     f_category := f_category r; f_processed := f_processed r |}
             else r in
  row_step r (g (u r)) /\ (f_id r = f_id b -> ~ unprocessed (g (u r))).
Proof.
  cbn zeta. destruct (Z.eq_dec (f_id r) (f_id b)) as [Heq|Hne].
  - rewrite !(decide_True (P := f_id r = f_id b)) by done. cbn [f_id].
    split; [by repeat split|]. by intros _.
  - rewrite !(decide_False (P := f_id r = f_id b)) by done.
    split; [apply row_step_refl|done].
Qed.

Lemma process_file_step s b : store_step s (process_file disk s b).
Proof.
  unfold process_file. destruct (disk (f_full_path b)); try apply store_step_refl.
  split; [|done]. cbn [files mark_as_processed update_stat].
  rewrite <- list_fmap_compose. apply fmap_row_step. intros r. unfold compose.
  apply (handled_row st_size st_mtime b r).
Qed.

Lemma process_batch_step batch s : store_step s (foldl (process_file disk) s batch).
Proof.
  revert s. induction batch as [|b batch IH]; intros s; cbn [foldl].
  - apply store_step_refl.
  - eapply store_step_trans; [apply process_file_step|apply IH].
Qed.

Lemma step_pending l l' :
  Forall2 row_step l l' -> length (filter unprocessed l') <= length (filter unprocessed l).
Proof.
  induction 1 as [|r r' l l' (_ & _ & _ & Hu) _ IH]; [done|].
  rewrite !filter_cons. destruct (decide (unprocessed r')) as [H'|H'].
  - rewrite <- (Hu H'). rewrite decide_True by done. simpl. lia.
  - destruct (decide (unprocessed r)); simpl; lia.
Qed.

Lemma step_ids l l' : Forall2 row_step l l' -> f_id <$> l' = f_id <$> l.
Proof. induction 1 as [|r r' l l' (Hi & _) _ IH]; [done|]. cbn. by rewrite Hi, IH. Qed.

Lemma step_paths l l' : Forall2 row_step l l' -> f_full_path <$> l' = f_full_path <$> l.
Proof. induction 1 as [|r r' l l' (_ & Hp & _) _ IH]; [done|]. cbn. by rewrite Hp, IH. Qed.

Lemma step_names l l' : Forall2 row_step l l' -> f_filename <$> l' = f_filename <$> l.
Proof. induction 1 as [|r r' l l' (_ & _ & Hn & _) _ IH]; [done|]. cbn. by rewrite Hn, IH. Qed.

Lemma step_on_disk l l' :
  Forall2 row_step l l' ->
  Forall (fun r => unprocessed r -> on_disk disk r) l ->
  Forall (fun r => unprocessed r -> on_disk disk r) l'.
Proof.
  induction 1 as [|r r' l l' (_ & _ & _ & Hu) _ IH]; [done|].
  intros [Hr Hl]%Forall_cons. constructor; [|auto].
  intros H'. rewrite (Hu H'). apply Hr. by rewrite <- (Hu H').
Qed.

Lemma fmap_pending (g : FileRow -> FileRow) (b : FileRow) l :
  (forall r, row_step r (g r)) -> ~ unprocessed (g b) ->
  b ∈ l -> unprocessed b ->
  length (filter unprocessed (g <$> l)) < length (filter unprocessed l).
Proof.
  intros Hg Hgb Hin Hb. induction l as [|r l IH]; [by apply elem_of_nil in Hin|].
  cbn [fmap list_fmap]. change (list_fmap _ _ g l) with (g <$> l).
  rewrite !filter_cons. apply elem_of_cons in Hin as [<-|Hin].
  - rewrite decide_False by done. rewrite decide_True by done. cbn [length].
    apply Nat.lt_succ_r, step_pending, fmap_row_step, Hg.
  - specialize (IH Hin). destruct (Hg r) as (_ & _ & _ & Hu).
    destruct (decide (unprocessed (g r))) as [H'|H'].
    + rewrite <- (Hu H'). rewrite decide_True by done. cbn [length]. lia.
    + destruct (decide (unprocessed r)); cbn [length]; lia.
Qed.

(** A file that is on disk leaves the pending rows when it is handled. *)
Lemma process_file_pending s b :
  b ∈ files s -> unprocessed b -> on_disk disk b ->
  pending (process_file disk s b) < pending s.
Proof.
  intros Hin Hb (sz & mt & Hdisk). unfold process_file, pending. rewrite Hdisk.
  cbn [files mark_as_processed update_stat]. rewrite <- list_fmap_compose.
  apply (fmap_pending _ b); try done.
  - intros r. unfold compose. apply (handled_row sz mt b r).
  - unfold compose. by apply (handled_row sz mt b b).
Qed.

Lemma batch_nonempty s batch_size r :
  0 < batch_size -> r ∈ files s -> unprocessed r ->
  exists b rest, get_unprocessed_files s batch_size = b :: rest /\
                 b ∈ files s /\ unprocessed b.
Proof.
  intros Hpos Hin Hr. unfold get_unprocessed_files.
  assert (r ∈ filter unprocessed (files s)) as Hf by (by apply list_elem_of_filter).
  destruct (filter unprocessed (files s)) as [|b rest] eqn:Heq; [by apply elem_of_nil in Hf|].
  destruct batch_size as [|n]; [lia|]. exists b, (take n rest). split; [done|].
  assert (b ∈ filter unprocessed (files s)) as Hb by (rewrite Heq; left).
  apply list_elem_of_filter in Hb as [? ?]. done.
Qed.

Lemma batch_empty s batch_size :
  0 < batch_size -> get_unprocessed_files s batch_size = [] ->
  filter unprocessed (files s) = [].
Proof.
  unfold get_unprocessed_files. intros Hpos.
  destruct (filter unprocessed (files s)); [done|]. destruct batch_size; [lia|done].
Qed.

Lemma loop_ends_within n s batch_size :
  0 < batch_size ->
  pending s <= n ->
  Forall (fun r => unprocessed r -> on_disk disk r) (files s) ->
  exists s', process_files disk (S n) s batch_size = Some s' /\
             filter unprocessed (files s') = [] /\ store_step s s'.
Proof.
  intros Hpos. revert s. induction n as [|n IH]; intros s Hn Hall.
  - exists s. cbn [process_files].
    assert (filter unprocessed (files s) = []) as Hnil.
    { unfold pending in Hn. destruct (filter unprocessed (files s)); [done|simpl in Hn; lia]. }
    unfold get_unprocessed_files. rewrite Hnil, take_nil.
    split; [done|]. split; [done|]. apply store_step_refl.
  - change (process_files disk (S (S n)) s batch_size)
      with (match get_unprocessed_files s batch_size with
            | [] => Some s
            | b :: rest =>
                process_files disk (S n) (foldl (process_file disk) s (b :: rest)) batch_size
            end).
    destruct (get_unprocessed_files s batch_size) as [|b rest] eqn:Hbatch.
    + exists s. split; [done|]. split; [by eapply batch_empty|]. apply store_step_refl.
    + assert (b ∈ files s /\ unprocessed b) as [Hb Hub].
      { assert (b ∈ get_unprocessed_files s batch_size) as Hin by (rewrite Hbatch; left).
        unfold get_unprocessed_files in Hin. apply elem_of_take in Hin as (i & Hin & _).
        apply list_elem_of_lookup_2, list_elem_of_filter in Hin as [? ?]. done. }
      pose proof (process_batch_step (b :: rest) s) as Hstep.
      destruct (IH (foldl (process_file disk) s (b :: rest))) as (s' & Hrun & Hnil & Hstep').
      * cbn [foldl].
        pose proof (process_file_pending s b Hb Hub) as Hlt.
        rewrite Forall_forall in Hall. specialize (Hlt (Hall b Hb Hub)).
        pose proof (process_batch_step rest (process_file disk s b)) as (Hf & _).
        apply step_pending in Hf. unfold pending in *. lia.
      * destruct Hstep as (Hf & _). by eapply step_on_disk.
      * exists s'. split; [done|]. split; [done|]. by eapply store_step_trans.
Qed.


Lemma NoDup_fmap_eq {A B : Type} (f : A -> B) (l : list A) x y :
  NoDup (f <$> l) -> x ∈ l -> y ∈ l -> f x = f y -> x = y.
Proof.
  induction l as [|a l IH]; [by intros _ ?%elem_of_nil|].
  cbn [fmap list_fmap]. intros [Hn Hnd]%NoDup_cons Hx Hy Heq.
  apply elem_of_cons in Hx as [->|Hx]; apply elem_of_cons in Hy as [->|Hy]; auto.
  - destruct Hn. rewrite Heq. by apply list_elem_of_fmap_2.
  - destruct Hn. rewrite <- Heq. by apply list_elem_of_fmap_2.
Qed.

(** A row whose file is missing survives the handling of any row of the
    table, when ids are unique. *)
Lemma process_file_keeps s0 s r b :
  NoDup (f_id <$> files s0) -> r ∈ files s0 -> b ∈ files s0 ->
  ~ on_disk disk r -> r ∈ files s -> r ∈ files (process_file disk s b).
Proof.
  intros Hnd Hr Hb Hmiss Hin. unfold process_file.
  destruct (disk (f_full_path b)) as [|sz mt|] eqn:Hdisk; try done.
  cbn [files mark_as_processed update_stat]. rewrite <- list_fmap_compose.
  assert (f_id r <> f_id b) as Hne.
  { intros Heq. assert (r = b) as -> by (by eapply (NoDup_fmap_eq f_id)).
    apply Hmiss. by exists sz, mt. }
  apply list_elem_of_fmap. exists r. split; [|done]. unfold compose.
  by rewrite !(decide_False (P := f_id r = f_id b)).
Qed.

Lemma process_batch_keeps s0 batch s r :
  NoDup (f_id <$> files s0) -> r ∈ files s0 -> Forall (fun b => b ∈ files s0) batch ->
  ~ on_disk disk r -> r ∈ files s -> r ∈ files (foldl (process_file disk) s batch).
Proof.
  intros Hnd Hr Hall Hmiss. revert s.
  induction Hall as [|b batch Hb _ IH]; intros s Hin; cbn [foldl]; [done|].
  apply IH. by eapply process_file_keeps.
Qed.


End process_files.



End BuilderExtra.

(** ** The batches of [process_all_indexes] *)
Module BatchExtra.
Import Pipeline PipelineSpec PipelineProps Batches.

(** The count only adds up: a turn of the writer from a count [c]. *)
Lemma save_item_count self c pe :
  save_item (self, c) pe = ((save_item (self, 0) pe).1, c + (save_item (self, 0) pe).2).
Proof.
  unfold save_item, save_entry. destruct (dry_run self); cbn [fst snd].
  { f_equal. lia. }
  destruct (Store.add_file _ _) as [[i s1]|]; cbn [fst snd]; [|f_equal; lia].
  destruct (Store.add_annotation _ _) as [[j s2]|]; cbn [fst snd]; [|f_equal; lia].
  destruct (Store.add_content _ _) as [[[k s3] d]|]; cbn [fst snd]; f_equal; lia.
Qed.

Lemma save_items_count l self c :
  foldl save_item (self, c) l =
  ((foldl save_item (self, 0) l).1, c + (foldl save_item (self, 0) l).2).
Proof.
  revert self c. induction l as [|pe l IH]; intros self c; cbn [foldl].
  - cbn [fst snd]. f_equal. lia.
  - rewrite (save_item_count self c pe).
    destruct (save_item (self, 0) pe) as [self1 n1]. cbn [fst snd].
    rewrite (IH self1 (c + n1)), (IH self1 n1). cbn [fst snd]. f_equal. lia.
Qed.

(** Two calls of [save_entries_to_db] in a row are one call on the two
    batches together. *)
Lemma save_entries_app self l1 l2 :
  save_entries_to_db self (l1 ++ l2) =
  let r1 := save_entries_to_db self l1 in
  let r2 := save_entries_to_db r1.1 l2 in
  (r2.1, r1.2 + r2.2).
Proof.
  cbn zeta. rewrite !save_entries_flat. unfold flat. rewrite bind_app, foldl_app.
  destruct (foldl save_item (self, 0) (l1 ≫= _)) as [self1 n1]. cbn [fst snd].
  apply save_items_count.
Qed.

Section process_all_indexes.
Variable process_index_file : string -> string * list IndexParser.Entry.

Lemma process_batch_take index_files self c i :
  process_batch process_index_file index_files (self, c) i =
  let r := save_entries_to_db self
             (process_index_file <$> take batch_size (drop i index_files)) in
  (r.1, c + r.2).
Proof.
  unfold process_batch, slice. cbn [fst snd].
  replace (i + batch_size - i) with batch_size by lia.
  by destruct (save_entries_to_db self _).
Qed.

Lemma process_batches_from index_files n a st :
  foldl (process_batch process_index_file index_files) st
        ((fun k => k * batch_size) <$> seq a n) =
  let r := save_entries_to_db st.1
             (process_index_file <$> take (n * batch_size) (drop (a * batch_size) index_files)) in
  (r.1, st.2 + r.2).
Proof.
  revert a st. induction n as [|n IH]; intros a [self c]; cbn [seq fmap list_fmap foldl].
  - cbn zeta. change (0 * batch_size) with 0. rewrite take_0. cbn. f_equal. lia.
  - change (list_fmap _ _ ?g ?l) with (g <$> l).
    rewrite process_batch_take. cbn zeta. rewrite IH. cbn zeta. cbn [fst snd].
    replace (S n * batch_size) with (batch_size + n * batch_size) by lia.
    rewrite <- take_take_drop, fmap_app, save_entries_app. cbn zeta.
    rewrite drop_drop.
    replace (S a * batch_size) with (a * batch_size + batch_size) by lia.
    destruct (save_entries_to_db self _) as [self1 n1]. cbn [fst snd].
    f_equal. lia.
Qed.

(** X19.  The batches of [process_all_indexes] do not show: the processor
    afterwards and [total_processed] are those of one call of
    [save_entries_to_db] on the results of all the index files, in their
    order, whatever the worker returns for each file. *)
Theorem process_all_indexes_is_one_save (self : IndexProcessor) (index_files : list string) :
  process_all_indexes process_index_file self index_files =
  save_entries_to_db self (process_index_file <$> index_files).
Proof.
  unfold process_all_indexes, range_step. rewrite process_batches_from. cbn zeta.
  rewrite drop_0, take_ge.
  - cbn [fst snd]. by destruct (save_entries_to_db _ _).
  - unfold batch_size.
    pose proof (Nat.div_mod_eq (length index_files + 10 - 1) 10).
    pose proof (Nat.mod_upper_bound (length index_files + 10 - 1) 10). lia.
Qed.

End process_all_indexes.

End BatchExtra.

(** ** [_clean_text] *)
Module CleanExtra.
Import BaseParser CleanSpec CoverageProps.

Lemma rev_empty s : String.rev s = "" -> s = "".
Proof.
  destruct s as [|c s]; [done|]. rewrite rev_cons.
  destruct (String.rev s); discriminate.
Qed.

Lemma lstrip_app a b :
  Text.lstrip (a +:+ b) = if decide (Text.lstrip a = "") then Text.lstrip b
                          else Text.lstrip a +:+ b.
Proof.
  induction a as [|c a IH].
  - by rewrite ParserProps.app_nil.
  - rewrite ParserProps.app_cons. cbn [Text.lstrip].
    destruct (Text.isspace c); [exact IH|]. by rewrite decide_False.
Qed.

(** [rstrip], read from the left. *)
Lemma rstrip_cons c s :
  Text.rstrip (String c s) =
  if decide (Text.rstrip s = "")
  then if Text.isspace c then "" else String c ""
  else String c (Text.rstrip s).
Proof.
  unfold Text.rstrip. rewrite rev_cons, lstrip_app.
  destruct (decide (Text.lstrip (String.rev s) = "")) as [Hnil|Hne].
  - rewrite Hnil. change (String.rev "") with "". rewrite decide_True by done.
    cbn [Text.lstrip]. by destruct (Text.isspace c).
  - rewrite decide_False by (by intros ?%rev_empty).
    rewrite rev_app. reflexivity.
Qed.

Lemma rstrip_nil : Text.rstrip "" = "".
Proof. reflexivity. Qed.

Lemma lstrip_clean_head s : clean_head (Text.lstrip s) = true.
Proof.
  induction s as [|c s IH]; [done|]. cbn [Text.lstrip].
  destruct (Text.isspace c) eqn:Hc; [done|]. cbn. by rewrite Hc.
Qed.

Lemma lstrip_fixed s : clean_head s = true -> Text.lstrip s = s.
Proof.
  destruct s as [|c s]; [done|]. cbn. by destruct (Text.isspace c).
Qed.

Lemma rstrip_clean_head s : clean_head s = true -> clean_head (Text.rstrip s) = true.
Proof.
  destruct s as [|c s]; [done|]. rewrite rstrip_cons. cbn [clean_head]. intros Hc.
  case_decide; [|done]. destruct (Text.isspace c) eqn:E; [done|]. cbn. by rewrite E.
Qed.

Lemma rstrip_idempotent s : Text.rstrip (Text.rstrip s) = Text.rstrip s.
Proof.
  induction s as [|c s IH]; [done|]. rewrite rstrip_cons.
  destruct (decide (Text.rstrip s = "")) as [Hnil|Hne].
  - destruct (Text.isspace c) eqn:Hc; [done|].
    rewrite rstrip_cons, rstrip_nil, decide_True by done. by rewrite Hc.
  - rewrite rstrip_cons, IH. by rewrite decide_False.
Qed.

Lemma strip_idempotent s : Text.strip (Text.strip s) = Text.strip s.
Proof.
  unfold Text.strip.
  rewrite (lstrip_fixed (Text.rstrip (Text.lstrip s)))
    by apply rstrip_clean_head, lstrip_clean_head.
  apply rstrip_idempotent.
Qed.

Lemma printable_chars_printable s : printable (printable_chars s) = true.
Proof.
  induction s as [|c s IH]; [done|]. cbn [printable_chars].
  destruct (isprintable c) eqn:Hc; [|done]. cbn [printable]. by rewrite Hc.
Qed.

Lemma printable_chars_fixed s : printable s = true -> printable_chars s = s.
Proof.
  induction s as [|c s IH]; [done|]. cbn [printable printable_chars].
  intros [-> Hs]%andb_prop. by rewrite IH.
Qed.

Lemma printable_plain s : printable s = true -> plain s = true.
Proof.
  induction s as [|c s IH]; [done|]. cbn [printable plain].
  intros [-> Hs]%andb_prop. by rewrite IH.
Qed.

Lemma sub_spaces_printable in_run s :
  plain s = true -> printable (sub_spaces in_run s) = true.
Proof.
  revert in_run. induction s as [|c s IH]; intros in_run; [done|].
  cbn [plain sub_spaces]. intros [Hc Hs]%andb_prop.
  destruct (Text.isspace c) eqn:Hsp.
  - destruct in_run; [by apply IH|]. cbn [printable]. rewrite IH by done. done.
  - cbn [printable]. rewrite orb_false_r in Hc. rewrite Hc, IH by done. done.
Qed.

Lemma lstrip_printable s : printable s = true -> printable (Text.lstrip s) = true.
Proof.
  induction s as [|c s IH]; [done|]. cbn [Text.lstrip].
  destruct (Text.isspace c); [|done]. cbn [printable]. intros [_ Hs]%andb_prop. auto.
Qed.

Lemma rstrip_printable s : printable s = true -> printable (Text.rstrip s) = true.
Proof.
  induction s as [|c s IH]; [done|]. rewrite rstrip_cons. cbn [printable].
  intros [Hc Hs]%andb_prop. case_decide.
  - destruct (Text.isspace c); [done|]. cbn [printable]. by rewrite Hc.
  - cbn [printable]. by rewrite Hc, IH.
Qed.

Lemma strip_printable s : printable s = true -> printable (Text.strip s) = true.
Proof. intros H. by apply rstrip_printable, lstrip_printable. Qed.

Lemma sub_spaces_spaced in_run s : spaced in_run (sub_spaces in_run s) = true.
Proof.
  revert in_run. induction s as [|c s IH]; intros in_run; [done|]. cbn [sub_spaces].
  destruct (Text.isspace c) eqn:Hc.
  - destruct in_run; [apply IH|]. cbn [spaced].
    change (Text.isspace " ") with true. cbn. apply IH.
  - cbn [spaced]. rewrite Hc. apply IH.
Qed.

Lemma spaced_fixed in_run s : spaced in_run s = true -> sub_spaces in_run s = s.
Proof.
  revert in_run. induction s as [|c s IH]; intros in_run; [done|]. cbn [spaced sub_spaces].
  destruct (Text.isspace c).
  - intros [[Hrun Hc%Ascii.eqb_eq]%andb_prop Hs]%andb_prop.
    destruct in_run; [done|]. subst c. by rewrite IH.
  - intros Hs. by rewrite IH.
Qed.

Lemma lstrip_spaced in_run s : spaced in_run s = true -> spaced false (Text.lstrip s) = true.
Proof.
  revert in_run. induction s as [|c s IH]; intros in_run; [done|].
  cbn [Text.lstrip spaced]. destruct (Text.isspace c) eqn:Hc.
  - intros [_ Hs]%andb_prop. by eapply IH.
  - intros Hs. cbn [spaced]. by rewrite Hc.
Qed.

Lemma rstrip_spaced in_run s : spaced in_run s = true -> spaced in_run (Text.rstrip s) = true.
Proof.
  revert in_run. induction s as [|c s IH]; intros in_run; [done|]. rewrite rstrip_cons.
  cbn [spaced]. destruct (Text.isspace c) eqn:Hc.
  - intros [Hhead Hs]%andb_prop. case_decide; [done|].
    cbn [spaced]. rewrite Hc, Hhead. by apply IH.
  - intros Hs. case_decide; cbn [spaced]; rewrite Hc; [done|by apply IH].
Qed.

(** A text without control characters is settled by one pass. *)
Lemma clean_plain s :
  plain s = true ->
  let w := _clean_text s in
  w = Text.strip (sub_spaces false s) /\ printable w = true /\ spaced false w = true.
Proof.
  intros Hs. cbn zeta. unfold _clean_text.
  assert (printable (Text.strip (sub_spaces false s)) = true) as Hp
    by (by apply strip_printable, sub_spaces_printable).
  rewrite (printable_chars_fixed _ Hp). split; [done|]. split; [done|].
  unfold Text.strip. apply rstrip_spaced. eapply lstrip_spaced. apply sub_spaces_spaced.
Qed.

Lemma clean_fixed w :
  printable w = true -> spaced false w = true -> Text.strip w = w -> _clean_text w = w.
Proof.
  intros Hp Hs Hstrip. unfold _clean_text.
  by rewrite (spaced_fixed _ _ Hs), Hstrip, printable_chars_fixed.
Qed.

Lemma clean_plain_idempotent s : plain s = true -> _clean_text (_clean_text s) = _clean_text s.
Proof.
  intros Hs. destruct (clean_plain s Hs) as (Hw & Hp & Hsp).
  apply clean_fixed; try done. rewrite Hw. apply strip_idempotent.
Qed.

(** X20.  [_clean_text] is settled by its second pass and not by its first:
    cleaning a third time changes nothing, whatever the text, but a control
    character between two spaces leaves a double space that only the second
    pass removes. *)
Theorem clean_text_settles_after_two :
  (forall text, _clean_text (_clean_text (_clean_text text)) = _clean_text (_clean_text text)) /\
  (exists text, _clean_text (_clean_text text) <> _clean_text text).
Proof.
  split.
  - intros text. apply clean_plain_idempotent, printable_plain.
    unfold _clean_text at 1. apply printable_chars_printable.
  - exists control_between_spaces. vm_compute. discriminate.
Qed.

(** X21.  On a text whose characters are all printable or white space,
    [_clean_text] is idempotent, and its result is the text with every run
    of white space made one space and the ends stripped: it has only
    printable characters, no white space but single spaces, and none at
    either end. *)
Theorem clean_text_idempotent_on_plain_text (text : string) :
  plain text = true ->
  let cleaned := _clean_text text in
  _clean_text cleaned = cleaned /\
  cleaned = Text.strip (sub_spaces false text) /\
  printable cleaned = true /\ spaced false cleaned = true /\ Text.strip cleaned = cleaned.
Proof.
  intros Hs. cbn zeta. destruct (clean_plain text Hs) as (Hw & Hp & Hsp).
  split; [by apply clean_plain_idempotent|]. split; [done|]. split; [done|].
  split; [done|]. rewrite Hw. apply strip_idempotent.
Qed.

(** Tabs, a line break and double spaces. *)
Lemma clean_text_idempotent_on_plain_text_witness :
  let text := String "009" (" a  b" +:+ Text.newline +:+ "c ") in
  _clean_text (_clean_text text) = _clean_text text /\ _clean_text text = "a b c".
Proof.
  intros text.
  destruct (clean_text_idempotent_on_plain_text text eq_refl) as (Hi & Hw & _).
  split; [exact Hi|]. rewrite Hw. reflexivity.
Defined.

End CleanExtra.
